(** * enumerators.py: a shallow embedding of the IDAPython enumeration utilities

    The module consists of a range resolver ([getrange]), two argument
    scanners ([getstringpos], [getcallablepos]) and eleven generator
    functions.  The host analysis database (idaapi / idc) is an explicit
    record of functions [Host]; a Python generator is a state machine whose
    [next] function receives the host as it is at the moment of the call,
    so the database may change between two steps, as in the docstring
    examples that rename or define items inside the loop. *)

From Stdlib Require Import ZArith List String Bool Lia Sorted.
Import ListNotations.
Open Scope Z_scope.

Set Warnings "-register-all".

(** ** Python values passed to the enumerators *)

(** The argument list is scanned by type: [types.IntType], [types.TupleType],
    [idaapi.area_t] (segments, functions and chunks are subclasses),
    [types.StringType] and [types.FunctionType].  Python 2 [long] and [bool]
    values are kept apart because [type(x)==types.IntType] is false for them,
    although both take part in integer arithmetic and in [|] ([bool] is a
    subclass of [int], [True] counting as 1).  [POther] is any other value
    ([None], a float, a list, ...), which supports neither. *)
Inductive pyval :=
| PInt (z : Z)
| PLong (z : Z)
| PStr (s : string)
| PTuple (vs : list pyval)
| PArea (startEA endEA : Z)
| PFunc (f : Z -> bool)
| PBool (b : bool)
| POther.

(** Exceptions a step of a generator can raise.  [Exception_] is the plain
    [Exception(msg)] of the source.  [OutOfModel] marks a range bound that
    is not a number: Python 2 would go on comparing it with addresses, which
    this embedding does not follow. *)
Inductive exc :=
| Exception_ (msg : string)
| ValueError
| TypeError
| NameError
| ZeroDivisionError
| OverflowError
| OutOfModel.

(** ** The host database *)

(** A function chunk ([func_t] as returned by [get_fchunk],
    [get_next_fchunk] and [get_next_func]). *)
Record chunk := mkchunk { startEA : Z; endEA : Z; flags : Z }.

Record Host := mkHost {
  read_selection : bool * Z * Z;           (* idaapi.read_selection() *)
  here : Z;                                 (* idc.here() *)
  getFlags : Z -> Z;                        (* idaapi.getFlags(ea) *)
  find_text : Z -> Z -> Z -> string -> Z -> Z;  (* (ea, y, x, str, flags) *)
  find_binary : Z -> Z -> string -> Z -> Z -> Z; (* (first, last, str, radix, flags) *)
  find_code : Z -> Z -> Z;                  (* (ea, flags) *)
  find_unknown : Z -> Z -> Z;               (* (ea, flags) *)
  next_head : Z -> Z -> Z;                  (* (ea, maxea) *)
  next_not_tail : Z -> Z;
  nextthat : Z -> Z -> (Z -> bool) -> Z;    (* (ea, maxea, testf) *)
  get_fchunk : Z -> option chunk;
  get_next_fchunk : Z -> option chunk;
  get_next_func : Z -> option chunk;
  ItemSize : Z -> Z;                        (* idc.ItemSize(ea) *)
  get_data_elsize : Z -> Z -> Z;            (* (ea, flags) *)
  (** whether the bare global name [isUnknown] used by [Undefs] is bound:
      true when the file is executed in IDAPython's main namespace, where
      [from idc import *] has been done; false when it is imported as a
      module, whose globals hold only [idaapi], [idc], [types] and its own
      definitions *)
  isUnknown_bound : bool
}.

(** Constants of the IDA 6 SDK. *)
Definition BADADDR : Z := 4294967295.
Definition SEARCH_DOWN : Z := 1.
Definition SEARCH_NEXT : Z := 2.
Definition FUNC_TAIL : Z := 32768.
Definition MS_CLS : Z := 1536.
Definition FF_CODE : Z := 1536.
Definition FF_DATA : Z := 1024.
Definition FF_TAIL : Z := 512.
Definition FF_UNK : Z := 0.

(** [sys.maxint] of the 32-bit Python 2 that IDA 6 embeds.  [range(lo, hi)]
    builds its whole list and raises [OverflowError] ("range() result has
    too many items") when that list would hold more than [sys.maxint]
    items.  Running out of memory while building a shorter list
    ([MemoryError]) is not modelled, as for every other allocation. *)
Definition PY_MAXINT : Z := 2147483647.

(** Number of items of [range(lo, hi)]. *)
Definition range_len (lo hi : Z) : Z := Z.max 0 (hi - lo).

(** The flag classifiers of the SDK ([bytes.hpp]). *)
Definition isCode (F : Z) : bool := Z.land F MS_CLS =? FF_CODE.
Definition isTail (F : Z) : bool := Z.land F MS_CLS =? FF_TAIL.
Definition isUnknown (F : Z) : bool := Z.land F MS_CLS =? FF_UNK.
Definition isHead (F : Z) : bool := negb (Z.land F FF_DATA =? 0).

(** ** Argument parsing *)

Definition int_at (args : list pyval) (n : nat) : option Z :=
  match nth_error args n with
  | Some (PInt z) => Some z
  | _ => None
  end.

(** [getrange(args)], lines 37-87. *)
Definition getrange (h : Host) (args : list pyval) : pyval :=
  let '(selection, selfirst, sellast) := read_selection h in
  match args with
  | (PTuple _ as a0) :: _ => a0
  | PArea s e :: _ => PTuple [PInt s; PInt e]
  | _ =>
      let argfirst := int_at args 0 in
      let arglast := int_at args 1 in
      match argfirst with
      | None =>
          if selection then PTuple [PInt selfirst; PInt sellast]
          else PTuple [PInt (here h); PInt BADADDR]
      | Some af =>
          match arglast with
          | None => PTuple [PInt af; PInt BADADDR]
          | Some al => PTuple [PInt af; PInt al]
          end
      end
  end.

Fixpoint getstringpos_from (i : Z) (args : list pyval) : Z :=
  match args with
  | [] => -1
  | PStr _ :: _ => i
  | _ :: rest => getstringpos_from (i + 1) rest
  end.

(** [getstringpos(args)]: index of the first [str] argument, or -1. *)
Definition getstringpos (args : list pyval) : Z := getstringpos_from 0 args.

Fixpoint getcallablepos_from (i : Z) (args : list pyval) : Z :=
  match args with
  | [] => -1
  | PFunc _ :: _ => i
  | _ :: rest => getcallablepos_from (i + 1) rest
  end.

(** [getcallablepos(args)]: index of the first Python function, or -1. *)
Definition getcallablepos (args : list pyval) : Z := getcallablepos_from 0 args.

(** Tuple assignment [(first, last) = v]: a tuple of another length raises
    [ValueError]. *)
Definition unpack2 (v : pyval) : exc + (pyval * pyval) :=
  match v with
  | PTuple [a; b] => inr (a, b)
  | _ => inl ValueError
  end.

Definition as_int (v : pyval) : option Z :=
  match v with
  | PInt z | PLong z => Some z
  | PBool b => Some (Z.b2z b)
  | _ => None
  end.

Definition bound (v : pyval) : exc + Z :=
  match as_int v with Some z => inr z | None => inl OutOfModel end.

(** The resolved range as numbers: [(first, last) = getrange(args)]. *)
Definition range_of (h : Host) (args : list pyval) : exc + (Z * Z) :=
  match unpack2 (getrange h args) with
  | inl e => inl e
  | inr (a, b) =>
      match bound a, bound b with
      | inr f, inr l => inr (f, l)
      | inl e, _ | _, inl e => inl e
      end
  end.

(** ** Generators *)

(** One [next()] on a generator: it yields a value and suspends in a new
    state, finishes ([StopIteration]), raises, or, for the two enumerators
    with an inner loop that yields nothing, does not finish its loop within
    the step bound it was given ([GHang]). *)
Inductive gstep (S : Type) :=
| GYield (v : Z) (s : S)
| GStop
| GRaise (e : exc)
| GHang.
Arguments GYield {S}. Arguments GStop {S}. Arguments GRaise {S}. Arguments GHang {S}.

(** A generator object: its suspended state and its [next], which takes a
    bound for inner loops and the host at the time of the call. *)
Record Gen := mkGen {
  gS : Type;
  gnext : nat -> Host -> gS -> gstep gS;
  gcur : gS
}.

Inductive ending := EDone | ERaise (e : exc) | EFuel.

(** Pulling at most [fuel] elements, the [k]-th [next()] seeing host [hs k]. *)
Fixpoint drive {St} (nx : nat -> Host -> St -> gstep St) (hs : nat -> Host)
    (k fuel : nat) (s : St) : list Z * ending :=
  match fuel with
  | O => ([], EFuel)
  | S f =>
      match nx fuel (hs k) s with
      | GYield v s' => let '(l, e) := drive nx hs (S k) f s' in (v :: l, e)
      | GStop => ([], EDone)
      | GRaise x => ([], ERaise x)
      | GHang => ([], EFuel)
      end
  end.

Definition run (fuel : nat) (hs : nat -> Host) (g : Gen) : list Z * ending :=
  drive (gnext g) hs 0 fuel (gcur g).

Definition yields (fuel : nat) (hs : nat -> Host) (g : Gen) : list Z :=
  fst (run fuel hs g).

(** The guard shared by most loops: [while ea!=BADADDR and ea<last]. *)
Definition in_range (ea last : Z) : bool := negb (ea =? BADADDR) && (ea <? last).

(** *** Texts, lines 105-138 *)
Inductive texts_st :=
| Texts_start (args : list pyval)
| Texts_resume (last : Z) (searchstr : string) (fl : Z) (ea : Z).

Definition Texts_loop (last : Z) (searchstr : string) (fl ea : Z) : gstep texts_st :=
  if in_range ea last then GYield ea (Texts_resume last searchstr fl ea) else GStop.

Definition Texts_next (_ : nat) (h : Host) (st : texts_st) : gstep texts_st :=
  match st with
  | Texts_start args =>
      match unpack2 (getrange h args) with
      | inl e => GRaise e
      | inr (pf, pl) =>
          let i := getstringpos args in
          if i <? 0 then GRaise (Exception_ "missing searchstring") else
          match nth_error args (Z.to_nat i) with
          | Some (PStr searchstr) =>
              let pflags := if i + 1 <? Z.of_nat (List.length args)
                            then nth (Z.to_nat (i + 1)) args (PInt 0) else PInt 0 in
              (* [SEARCH_DOWN|flags] is evaluated before [find_text] sees [first] *)
              match as_int pflags, bound pf with
              | None, _ => GRaise TypeError
              | _, inl e => GRaise e
              | Some fl, inr first =>
                  match bound pl with
                  | inl e => GRaise e
                  | inr last =>
                      Texts_loop last searchstr fl
                        (find_text h first 0 0 searchstr (Z.lor SEARCH_DOWN fl))
                  end
              end
          | _ => GRaise TypeError
          end
      end
  | Texts_resume last searchstr fl ea =>
      Texts_loop last searchstr fl
        (find_text h (next_head h ea last) 0 0 searchstr (Z.lor SEARCH_DOWN fl))
  end.

Definition Texts (args : list pyval) : Gen := mkGen _ Texts_next (Texts_start args).

(** *** NonFuncs, lines 140-178 *)
Inductive nonfuncs_st :=
| NonFuncs_start (args : list pyval)
| NonFuncs_after_code (last ea : Z)   (* suspended at [yield ea] of the isCode branch *)
| NonFuncs_after_next (last nextcode : Z).  (* suspended at [yield nextcode] *)

Fixpoint NonFuncs_loop (fuel : nat) (h : Host) (last ea : Z) : gstep nonfuncs_st :=
  match fuel with
  | O => GHang
  | S f =>
      if in_range ea last then
        let nextcode := find_code h ea (Z.lor SEARCH_NEXT SEARCH_DOWN) in
        let thischunk := get_fchunk h ea in
        let nextchunk := get_next_fchunk h ea in
        match thischunk with
        | Some c => NonFuncs_loop f h last (endEA c)
        | None =>
            if isCode (getFlags h ea) then GYield ea (NonFuncs_after_code last ea)
            else match nextchunk with
                 | None => GStop
                 | Some nc =>
                     if nextcode <? startEA nc
                     then GYield nextcode (NonFuncs_after_next last nextcode)
                     else NonFuncs_loop f h last (endEA nc)
                 end
        end
      else GStop
  end.

Definition NonFuncs_next (fuel : nat) (h : Host) (st : nonfuncs_st) : gstep nonfuncs_st :=
  match st with
  | NonFuncs_start args =>
      match range_of h args with
      | inl e => GRaise e
      | inr (first, last) => NonFuncs_loop fuel h last first
      end
  | NonFuncs_after_code last ea => NonFuncs_loop fuel h last (next_head h ea last)
  | NonFuncs_after_next last nextcode => NonFuncs_loop fuel h last nextcode
  end.

Definition NonFuncs (args : list pyval) : Gen :=
  mkGen _ NonFuncs_next (NonFuncs_start args).

(** *** Undefs, lines 180-205 *)
Inductive undefs_st :=
| Undefs_start (args : list pyval)
| Undefs_resume (last ea : Z).

Definition Undefs_loop (last ea : Z) : gstep undefs_st :=
  if in_range ea last then GYield ea (Undefs_resume last ea) else GStop.

Definition Undefs_next (_ : nat) (h : Host) (st : undefs_st) : gstep undefs_st :=
  match st with
  | Undefs_start args =>
      match range_of h args with
      | inl e => GRaise e
      | inr (first, last) =>
          let ea := first in
          if ea <? last then
            (* [isUnknown] is looked up in the module's global namespace *)
            if isUnknown_bound h then
              if negb (isUnknown (getFlags h ea))
              then Undefs_loop last (find_unknown h ea SEARCH_DOWN)
              else Undefs_loop last ea
            else GRaise NameError
          else Undefs_loop last ea
      end
  | Undefs_resume last ea => Undefs_loop last (find_unknown h ea SEARCH_DOWN)
  end.

Definition Undefs (args : list pyval) : Gen := mkGen _ Undefs_next (Undefs_start args).

(** *** Binaries, lines 207-244 *)
Inductive binaries_st :=
| Binaries_start (args : list pyval)
| Binaries_resume (last : Z) (searchstr : string) (ea : Z).

Definition Binaries_loop (last : Z) (searchstr : string) (ea : Z) : gstep binaries_st :=
  if in_range ea last then GYield ea (Binaries_resume last searchstr ea) else GStop.

Definition Binaries_next (_ : nat) (h : Host) (st : binaries_st) : gstep binaries_st :=
  match st with
  | Binaries_start args =>
      match unpack2 (getrange h args) with
      | inl e => GRaise e
      | inr (pf, pl) =>
          let i := getstringpos args in
          if i <? 0 then GRaise (Exception_ "missing searchstring") else
          match nth_error args (Z.to_nat i) with
          | Some (PStr searchstr) =>
              match bound pf, bound pl with
              | inr first, inr last =>
                  Binaries_loop last searchstr
                    (find_binary h first last searchstr 16 SEARCH_DOWN)
              | inl e, _ | _, inl e => GRaise e
              end
          | _ => GRaise TypeError
          end
      end
  | Binaries_resume last searchstr ea =>
      Binaries_loop last searchstr
        (find_binary h ea last searchstr 16 (Z.lor SEARCH_DOWN SEARCH_NEXT))
  end.

Definition Binaries (args : list pyval) : Gen :=
  mkGen _ Binaries_next (Binaries_start args).

(** *** ArrayItems, lines 246-275 *)
Inductive arrayitems_st :=
| ArrayItems_start (args : list pyval)
| ArrayItems_resume (ea ss n i : Z).   (* [for i in range(n)], next index [i] *)

Definition ArrayItems_loop (ea ss n i : Z) : gstep arrayitems_st :=
  if i <? n then GYield (ea + i * ss) (ArrayItems_resume ea ss n (i + 1)) else GStop.

Definition ArrayItems_next (_ : nat) (h : Host) (st : arrayitems_st)
    : gstep arrayitems_st :=
  match st with
  | ArrayItems_start args =>
      let pea := match args with a0 :: _ => a0 | [] => PInt (here h) end in
      match as_int pea with
      | None => GRaise TypeError
      | Some ea =>
          let s := ItemSize h ea in
          let ss := get_data_elsize h ea (getFlags h ea) in
          if ss =? 0 then GRaise ZeroDivisionError else
          (* Python 2 [/] on ints is floor division *)
          let n := s / ss in
          if range_len 0 n >? PY_MAXINT then GRaise OverflowError else
          ArrayItems_loop ea ss n 0
      end
  | ArrayItems_resume ea ss n i => ArrayItems_loop ea ss n i
  end.

Definition ArrayItems (args : list pyval) : Gen :=
  mkGen _ ArrayItems_next (ArrayItems_start args).

(** *** Addrs, lines 277-288.  Python 2's [range(first, last)] builds the
    whole list on the first step, or raises [OverflowError] there; the
    embedding then walks it one by one. *)
Inductive addrs_st :=
| Addrs_start (args : list pyval)
| Addrs_resume (last ea : Z).

Definition Addrs_loop (last ea : Z) : gstep addrs_st :=
  if ea <? last then GYield ea (Addrs_resume last ea) else GStop.

Definition Addrs_next (_ : nat) (h : Host) (st : addrs_st) : gstep addrs_st :=
  match st with
  | Addrs_start args =>
      match range_of h args with
      | inl e => GRaise e
      | inr (first, last) =>
          if range_len first last >? PY_MAXINT then GRaise OverflowError else
          Addrs_loop last first
      end
  | Addrs_resume last ea => Addrs_loop last (ea + 1)
  end.

Definition Addrs (args : list pyval) : Gen := mkGen _ Addrs_next (Addrs_start args).

(** *** BytesThat, lines 290-312 *)
Inductive bytesthat_st :=
| BytesThat_start (args : list pyval)
| BytesThat_resume (last : Z) (callable : Z -> bool) (ea : Z).

Definition BytesThat_loop (last : Z) (callable : Z -> bool) (ea : Z) : gstep bytesthat_st :=
  if in_range ea last then GYield ea (BytesThat_resume last callable ea) else GStop.

Definition BytesThat_next (_ : nat) (h : Host) (st : bytesthat_st) : gstep bytesthat_st :=
  match st with
  | BytesThat_start args =>
      match unpack2 (getrange h args) with
      | inl e => GRaise e
      | inr (pf, pl) =>
          let i := getcallablepos args in
          if i <? 0 then GRaise (Exception_ "missing callable") else
          match nth_error args (Z.to_nat i) with
          | Some (PFunc callable) =>
              match bound pf, bound pl with
              | inr first, inr last =>
                  let ea := first in
                  if (ea <? last) && negb (callable (getFlags h ea))
                  then BytesThat_loop last callable (nextthat h ea last callable)
                  else BytesThat_loop last callable ea
              | inl e, _ | _, inl e => GRaise e
              end
          | _ => GRaise TypeError
          end
      end
  | BytesThat_resume last callable ea =>
      BytesThat_loop last callable (nextthat h ea last callable)
  end.

Definition BytesThat (args : list pyval) : Gen :=
  mkGen _ BytesThat_next (BytesThat_start args).

(** *** Heads, lines 314-330 *)
Inductive heads_st :=
| Heads_start (args : list pyval)
| Heads_resume (last ea : Z).

Definition Heads_loop (last ea : Z) : gstep heads_st :=
  if in_range ea last then GYield ea (Heads_resume last ea) else GStop.

Definition Heads_next (_ : nat) (h : Host) (st : heads_st) : gstep heads_st :=
  match st with
  | Heads_start args =>
      match range_of h args with
      | inl e => GRaise e
      | inr (first, last) =>
          let ea := first in
          if (ea <? last) && negb (isHead (getFlags h ea))
          then Heads_loop last (next_head h ea last)
          else Heads_loop last ea
      end
  | Heads_resume last ea => Heads_loop last (next_head h ea last)
  end.

Definition Heads (args : list pyval) : Gen := mkGen _ Heads_next (Heads_start args).

(** *** NotTails, lines 332-350 *)
Inductive nottails_st :=
| NotTails_start (args : list pyval)
| NotTails_resume (last ea : Z).

Definition NotTails_loop (last ea : Z) : gstep nottails_st :=
  if in_range ea last then GYield ea (NotTails_resume last ea) else GStop.

Definition NotTails_next (_ : nat) (h : Host) (st : nottails_st) : gstep nottails_st :=
  match st with
  | NotTails_start args =>
      match range_of h args with
      | inl e => GRaise e
      | inr (first, last) =>
          let ea := first in
          if (ea <? last) && isTail (getFlags h ea)
          then NotTails_loop last (next_not_tail h ea)
          else NotTails_loop last ea
      end
  | NotTails_resume last ea => NotTails_loop last (next_not_tail h ea)
  end.

Definition NotTails (args : list pyval) : Gen :=
  mkGen _ NotTails_next (NotTails_start args).

(** *** Funcs, lines 352-372 *)
Inductive funcs_st :=
| Funcs_start (args : list pyval)
| Funcs_resume (last fstart : Z).

(** [chunk = get_fchunk(first)] or, failing that, [get_next_fchunk(first)]. *)
Definition first_chunk (h : Host) (first : Z) : option chunk :=
  match get_fchunk h first with
  | Some c => Some c
  | None => get_next_fchunk h first
  end.

Definition is_tail_chunk (c : chunk) : bool := negb (Z.land (flags c) FUNC_TAIL =? 0).

(** [while chunk and chunk.startEA < last and (chunk.flags & FUNC_TAIL) != 0];
    [None] when the loop has not ended within [fuel] rounds. *)
Fixpoint skip_tail_chunks (fuel : nat) (h : Host) (last : Z) (ch : option chunk)
    : option (option chunk) :=
  match fuel with
  | O => None
  | S f =>
      match ch with
      | Some c =>
          if (startEA c <? last) && is_tail_chunk c
          then skip_tail_chunks f h last (get_next_fchunk h (startEA c))
          else Some ch
      | None => Some None
      end
  end.

Definition Funcs_loop (last : Z) (func : option chunk) : gstep funcs_st :=
  match func with
  | Some c => if startEA c <? last then GYield (startEA c) (Funcs_resume last (startEA c))
              else GStop
  | None => GStop
  end.

Definition Funcs_next (fuel : nat) (h : Host) (st : funcs_st) : gstep funcs_st :=
  match st with
  | Funcs_start args =>
      match range_of h args with
      | inl e => GRaise e
      | inr (first, last) =>
          match skip_tail_chunks fuel h last (first_chunk h first) with
          | None => GHang
          | Some func => Funcs_loop last func
          end
      end
  | Funcs_resume last fstart => Funcs_loop last (get_next_func h fstart)
  end.

Definition Funcs (args : list pyval) : Gen := mkGen _ Funcs_next (Funcs_start args).

(** *** FChunks, lines 375-392 *)
Inductive fchunks_st :=
| FChunks_start (args : list pyval)
| FChunks_resume (last cstart : Z).

Definition FChunks_loop (last : Z) (chunk : option chunk) : gstep fchunks_st :=
  match chunk with
  | Some c => if startEA c <? last then GYield (startEA c) (FChunks_resume last (startEA c))
              else GStop
  | None => GStop
  end.

Definition FChunks_next (_ : nat) (h : Host) (st : fchunks_st) : gstep fchunks_st :=
  match st with
  | FChunks_start args =>
      match range_of h args with
      | inl e => GRaise e
      | inr (first, last) => FChunks_loop last (first_chunk h first)
      end
  | FChunks_resume last cstart => FChunks_loop last (get_next_fchunk h cstart)
  end.

Definition FChunks (args : list pyval) : Gen := mkGen _ FChunks_next (FChunks_start args).

(** ** Calling an enumerator *)

Inductive enumerator :=
| ETexts | ENonFuncs | EUndefs | EBinaries | EArrayItems | EAddrs
| EBytesThat | EHeads | ENotTails | EFuncs | EFChunks.

Definition generator_of (en : enumerator) (args : list pyval) : Gen :=
  match en with
  | ETexts => Texts args
  | ENonFuncs => NonFuncs args
  | EUndefs => Undefs args
  | EBinaries => Binaries args
  | EArrayItems => ArrayItems args
  | EAddrs => Addrs args
  | EBytesThat => BytesThat args
  | EHeads => Heads args
  | ENotTails => NotTails args
  | EFuncs => Funcs args
  | EFChunks => FChunks args
  end.

(** A Python call of an enumerator: every enumerator's body contains [yield], so
    the call only builds the generator object; no statement of the body runs
    before the first [next()].  With its star-args parameter the call cannot fail on its
    arguments either. *)
Definition call (en : enumerator) (args : list pyval) : exc + Gen :=
  inr (generator_of en args).

(** The first [next()] on a generator. *)
Definition first_next (fuel : nat) (h : Host) (g : Gen) : gstep (gS g) :=
  gnext g fuel h (gcur g).

(** ** A concrete host for tests *)

(** A database with no selection, the cursor at 0x1000, every byte
    undefined, no functions, and search primitives that find nothing. *)
Definition sample_host : Host := {|
  read_selection := (false, 0, 0);
  here := 4096;
  getFlags := fun _ => 0;
  find_text := fun _ _ _ _ _ => BADADDR;
  find_binary := fun _ _ _ _ _ => BADADDR;
  find_code := fun _ _ => BADADDR;
  find_unknown := fun ea _ => ea + 1;
  next_head := fun _ _ => BADADDR;
  next_not_tail := fun ea => ea + 1;
  nextthat := fun _ _ _ => BADADDR;
  get_fchunk := fun _ => None;
  get_next_fchunk := fun _ => None;
  get_next_func := fun _ => None;
  ItemSize := fun _ => 1;
  get_data_elsize := fun _ _ => 1;
  isUnknown_bound := true
|}.

Definition with_selection (h : Host) (sel : bool * Z * Z) : Host :=
  {| read_selection := sel; here := here h; getFlags := getFlags h;
     find_text := find_text h; find_binary := find_binary h;
     find_code := find_code h; find_unknown := find_unknown h;
     next_head := next_head h; next_not_tail := next_not_tail h;
     nextthat := nextthat h; get_fchunk := get_fchunk h;
     get_next_fchunk := get_next_fchunk h; get_next_func := get_next_func h;
     ItemSize := ItemSize h; get_data_elsize := get_data_elsize h;
     isUnknown_bound := isUnknown_bound h |}.

Definition always (h : Host) : nat -> Host := fun _ => h.

Example getrange_two_ints : getrange sample_host [PInt 16; PInt 32] = PTuple [PInt 16; PInt 32].
Proof. reflexivity. Qed.

Example getrange_nothing : getrange sample_host [] = PTuple [PInt 4096; PInt BADADDR].
Proof. reflexivity. Qed.

Example getrange_selection :
  getrange (with_selection sample_host (true, 10, 20)) [PStr "x"] = PTuple [PInt 10; PInt 20].
Proof. reflexivity. Qed.

Example addrs_small : run 10 (always sample_host) (Addrs [PInt 3; PInt 6]) = ([3; 4; 5], EDone).
Proof. reflexivity. Qed.

Example undefs_small :
  run 10 (always sample_host) (Undefs [PInt 3; PInt 6]) = ([3; 4; 5], EDone).
Proof. reflexivity. Qed.

Example texts_missing :
  run 10 (always sample_host) (Texts [PInt 3]) = ([], ERaise (Exception_ "missing searchstring")).
Proof. reflexivity. Qed.

(** ** Range resolution *)

Definition is_range_or_int (v : pyval) : bool :=
  match v with PTuple _ | PArea _ _ | PInt _ => true | _ => false end.

(** Whether the first argument is a tuple or an [area_t], the two cases
    [getrange] returns before it looks at [int] arguments. *)
Definition first_is_range (args : list pyval) : bool :=
  match args with PTuple _ :: _ | PArea _ _ :: _ => true | _ => false end.

(** What [getrange] can return, each value with the place it is taken from:
    the first argument itself, the bounds of an [area_t], the selection,
    the cursor with [BADADDR], or the [int] arguments. *)
Inductive getrange_shape (h : Host) (args : list pyval) : pyval -> Prop :=
| shape_verbatim l rest :
    args = PTuple l :: rest -> getrange_shape h args (PTuple l)
| shape_area s e rest :
    args = PArea s e :: rest -> getrange_shape h args (PTuple [PInt s; PInt e])
| shape_selection f l :
    first_is_range args = false -> int_at args 0 = None ->
    read_selection h = (true, f, l) -> getrange_shape h args (PTuple [PInt f; PInt l])
| shape_cursor f l :
    first_is_range args = false -> int_at args 0 = None ->
    read_selection h = (false, f, l) ->
    getrange_shape h args (PTuple [PInt (here h); PInt BADADDR])
| shape_int_only af :
    first_is_range args = false -> int_at args 0 = Some af -> int_at args 1 = None ->
    getrange_shape h args (PTuple [PInt af; PInt BADADDR])
| shape_ints af al :
    first_is_range args = false -> int_at args 0 = Some af -> int_at args 1 = Some al ->
    getrange_shape h args (PTuple [PInt af; PInt al]).

Ltac unfold_getrange h :=
  unfold getrange; destruct (read_selection h) as [[? ?] ?].

(** C1 (amended): a tuple in first position is returned verbatim, whatever
    the other arguments are. *)
Theorem getrange_first_tuple_verbatim :
  forall (h : Host) (l rest : list pyval), getrange h (PTuple l :: rest) = PTuple l.
Proof. intros h l rest. unfold_getrange h. reflexivity. Qed.

(** C1 (counterexample): a pair that is not the first argument is ignored:
    [getrange((1, (0x10, 0x20)))] gives [(1, BADADDR)], not the pair. *)
Lemma getrange_pair_elsewhere_ignored :
  In (PTuple [PInt 16; PInt 32]) [PInt 1; PTuple [PInt 16; PInt 32]] /\
  getrange sample_host [PInt 1; PTuple [PInt 16; PInt 32]] = PTuple [PInt 1; PInt BADADDR] /\
  getrange sample_host [PInt 1; PTuple [PInt 16; PInt 32]] <> PTuple [PInt 16; PInt 32].
Proof.
  split; [simpl; tauto|]. split; [reflexivity|].
  vm_compute. congruence.
Qed.

(** C4: with an [int] first argument and no [int] second argument the range
    is [(argfirst, BADADDR)], whatever the host's selection is. *)
Theorem getrange_first_int_only :
  forall (h : Host) (args : list pyval) (af : Z),
    nth_error args 0 = Some (PInt af) ->
    (forall z, nth_error args 1 <> Some (PInt z)) ->
    getrange h args = PTuple [PInt af; PInt BADADDR].
Proof.
  intros h args af H0 H1.
  destruct args as [|a0 rest]; [discriminate|].
  simpl in H0. injection H0 as ->.
  unfold_getrange h. unfold int_at. simpl.
  destruct rest as [|a1 rest']; [reflexivity|].
  simpl in H1. destruct a1 as [z1| | | | | | |]; try reflexivity.
  exfalso. exact (H1 z1 eq_refl).
Qed.

Lemma getrange_first_int_only_witness :
  nth_error [PInt 5; PStr "s"] 0 = Some (PInt 5) /\
  getrange (with_selection sample_host (true, 100, 200)) [PInt 5; PStr "s"]
    = PTuple [PInt 5; PInt BADADDR].
Proof.
  split; [reflexivity|].
  apply (getrange_first_int_only (with_selection sample_host (true, 100, 200))
           [PInt 5; PStr "s"] 5); [reflexivity|].
  intros z. simpl. discriminate.
Defined.

(** C5: with no tuple, area and [int] argument, the range is the active
    selection, or [(here(), BADADDR)] when there is none. *)
Theorem getrange_no_bounds :
  forall (h : Host) (args : list pyval),
    Forall (fun v => is_range_or_int v = false) args ->
    getrange h args =
      let '(selection, selfirst, sellast) := read_selection h in
      if selection then PTuple [PInt selfirst; PInt sellast]
      else PTuple [PInt (here h); PInt BADADDR].
Proof.
  intros h args Hall.
  assert (Hf : int_at args 0 = None).
  { unfold int_at. destruct args as [|a0 rest]; [reflexivity|].
    inversion Hall as [|? ? Ha0 _]; subst. simpl.
    destruct a0; simpl in Ha0; congruence. }
  unfold getrange. destruct (read_selection h) as [[sel f] l].
  destruct args as [|a0 rest]; [reflexivity|].
  inversion Hall as [|? ? Ha0 _]; subst.
  rewrite Hf.
  destruct a0; simpl in Ha0; try discriminate; reflexivity.
Qed.

Lemma getrange_no_bounds_witness :
  getrange (with_selection sample_host (true, 100, 200)) [PStr "s"; PLong 7]
    = PTuple [PInt 100; PInt 200] /\
  getrange sample_host [PStr "s"; PLong 7] = PTuple [PInt 4096; PInt BADADDR].
Proof.
  split.
  - apply (getrange_no_bounds (with_selection sample_host (true, 100, 200)) [PStr "s"; PLong 7]).
    repeat constructor.
  - apply (getrange_no_bounds sample_host [PStr "s"; PLong 7]).
    repeat constructor.
Defined.

(** C6 (amended): [getrange] is a total function of the host and the
    arguments (it never raises).  It returns the first argument unchanged
    when that is a tuple, of any length and contents; otherwise it returns a
    pair of numbers taken from an [area_t] first argument, the selection,
    the cursor with [BADADDR], or the [int] arguments, and it does not check
    that the pair is ordered. *)
Theorem getrange_total_shape :
  forall (h : Host) (args : list pyval), getrange_shape h args (getrange h args).
Proof.
  intros h args. unfold getrange.
  destruct (read_selection h) as [[sel f] l] eqn:Hsel.
  destruct args as [|a0 rest].
  - destruct sel; [eapply shape_selection | eapply shape_cursor]; eauto.
  - destruct a0 as [z|z|s|vs|s e|fn|b|];
      try (apply (shape_verbatim _ _ vs rest); reflexivity);
      try (apply (shape_area _ _ s e rest); reflexivity);
      try (destruct sel; [eapply shape_selection | eapply shape_cursor]; eauto; fail).
    destruct (int_at (PInt z :: rest) 1) as [al|] eqn:Hl.
    + apply shape_ints; auto.
    + apply shape_int_only; auto.
Qed.

(** C6 (counterexample): [getrange(9, 3)] and [getrange((9, 3))] give the
    pair [(9, 3)], neither ordered nor ending in [BADADDR]; a one-element
    tuple is returned as it is. *)
Lemma getrange_unordered_result :
  getrange sample_host [PInt 9; PInt 3] = PTuple [PInt 9; PInt 3] /\
  getrange sample_host [PTuple [PInt 9; PInt 3]] = PTuple [PInt 9; PInt 3] /\
  getrange sample_host [PTuple [PInt 9]] = PTuple [PInt 9] /\
  ~ (9 <= 3 \/ 3 = BADADDR).
Proof.
  split; [reflexivity|]. split; [reflexivity|]. split; [reflexivity|].
  unfold BADADDR. lia.
Qed.

(** ** Missing search string or predicate *)

(** C2 (counterexample): [Texts()] with no search string returns a generator
    object without raising; the exception comes out of its first [next()]. *)
Lemma texts_missing_raises_on_first_next :
  (forall e, call ETexts [] <> inl e) /\
  (exists g, call ETexts [] = inr g /\
     run 1 (always sample_host) g = ([], ERaise (Exception_ "missing searchstring"))).
Proof.
  split.
  - intros e. unfold call. discriminate.
  - eexists. split; [reflexivity|]. reflexivity.
Qed.

(** C2 (amended): when the range resolves to a pair, [Texts] and [Binaries]
    without a [str] argument and [BytesThat] without a function argument
    build their generator without raising, and its first [next()] raises
    [Exception] before any element is produced. *)
Theorem missing_argument_on_first_next :
  forall (hs : nat -> Host) (args : list pyval) (fuel : nat),
    (0 < fuel)%nat ->
    (exists a b, unpack2 (getrange (hs O) args) = inr (a, b)) ->
    (getstringpos args < 0 ->
       (exists g, call ETexts args = inr g /\
          run fuel hs g = ([], ERaise (Exception_ "missing searchstring"))) /\
       (exists g, call EBinaries args = inr g /\
          run fuel hs g = ([], ERaise (Exception_ "missing searchstring")))) /\
    (getcallablepos args < 0 ->
       exists g, call EBytesThat args = inr g /\
          run fuel hs g = ([], ERaise (Exception_ "missing callable"))).
Proof.
  intros hs args fuel Hf [a [b Hr]].
  destruct fuel as [|f]; [lia|].
  split; [intros Hi; split|intros Hi]; eexists; (split; [reflexivity|]);
    unfold run; simpl;
    [unfold Texts_next | unfold Binaries_next | unfold BytesThat_next];
    rewrite Hr; apply Z.ltb_lt in Hi; rewrite Hi; reflexivity.
Qed.

Lemma missing_argument_on_first_next_witness :
  (exists g, call ETexts [PInt 1] = inr g /\
     run 1 (always sample_host) g = ([], ERaise (Exception_ "missing searchstring"))).
Proof.
  refine (proj1 (proj1 (missing_argument_on_first_next (always sample_host) [PInt 1] 1
                          _ _) _)).
  - lia.
  - do 2 eexists. reflexivity.
  - reflexivity.
Defined.

(** ** A host whose function chunks are a list *)

(** The chunks of the database in ascending address order: [get_fchunk]
    gives the chunk containing an address, [get_next_fchunk] the first chunk
    starting after it, [get_next_func] the first function entry (a chunk
    without [FUNC_TAIL]) starting after it. *)
Definition chunk_at (db : list chunk) (ea : Z) : option chunk :=
  find (fun c => (startEA c <=? ea) && (ea <? endEA c)) db.

Definition next_chunk_after (db : list chunk) (ea : Z) : option chunk :=
  find (fun c => ea <? startEA c) db.

Definition next_func_after (db : list chunk) (ea : Z) : option chunk :=
  find (fun c => (ea <? startEA c) && negb (is_tail_chunk c)) db.

Definition with_chunks (db : list chunk) (h : Host) : Host :=
  {| read_selection := read_selection h; here := here h; getFlags := getFlags h;
     find_text := find_text h; find_binary := find_binary h;
     find_code := find_code h; find_unknown := find_unknown h;
     next_head := next_head h; next_not_tail := next_not_tail h;
     nextthat := nextthat h; get_fchunk := chunk_at db;
     get_next_fchunk := next_chunk_after db; get_next_func := next_func_after db;
     ItemSize := ItemSize h; get_data_elsize := get_data_elsize h;
     isUnknown_bound := isUnknown_bound h |}.

(** ** Facts about the generators *)

Lemma range_of_inv :
  forall h args first last,
    range_of h args = inr (first, last) ->
    exists pf pl, unpack2 (getrange h args) = inr (pf, pl) /\
                  bound pf = inr first /\ bound pl = inr last.
Proof.
  intros h args first last H. unfold range_of in H.
  destruct (unpack2 (getrange h args)) as [e|[pf pl]]; [discriminate|].
  exists pf, pl. split; [reflexivity|].
  destruct (bound pf), (bound pl); try discriminate.
  injection H as -> ->. auto.
Qed.

(** If a property holds of every yield of one step from states satisfying an
    invariant, and the step keeps the invariant, it holds of every yield. *)
Lemma drive_yields_good :
  forall {St} (nx : nat -> Host -> St -> gstep St) (hs : nat -> Host)
         (Inv : nat -> St -> Prop) (Good : Z -> Prop),
    (forall k f s v s', Inv k s -> nx f (hs k) s = GYield v s' -> Good v /\ Inv (S k) s') ->
    forall fuel k s v, Inv k s -> In v (fst (drive nx hs k fuel s)) -> Good v.
Proof.
  intros St nx hs Inv Good Hstep fuel.
  induction fuel as [|f IH]; intros k s v Hinv Hin; simpl in Hin; [contradiction|].
  destruct (nx (S f) (hs k) s) as [w s'| | |] eqn:E; simpl in Hin; try contradiction.
  destruct (drive nx hs (S k) f s') as [l e] eqn:Ed. simpl in Hin.
  destruct (Hstep k (S f) s w s' Hinv E) as [Hg Hinv'].
  destruct Hin as [<-|Hin]; [exact Hg|].
  apply (IH (S k) s' v Hinv'). rewrite Ed. exact Hin.
Qed.

(** A generator whose first step does not yield yields nothing. *)
Lemma no_first_yield :
  forall (g : Gen) (hs : nat -> Host) fuel,
    (forall f v s', gnext g f (hs O) (gcur g) <> GYield v s') ->
    yields fuel hs g = [].
Proof.
  intros g hs fuel H. unfold yields, run.
  destruct fuel as [|f]; [reflexivity|]. simpl.
  destruct (gnext g (S f) (hs O) (gcur g)) as [v s'| | |] eqn:E; try reflexivity.
  exfalso. exact (H _ _ _ E).
Qed.

Ltac bool_facts :=
  repeat match goal with
  | H : (_ && _)%bool = true |- _ => apply andb_true_iff in H; destruct H
  | H : negb _ = true |- _ => apply negb_true_iff in H
  | H : (_ =? _) = false |- _ => apply Z.eqb_neq in H
  | H : (_ =? _) = true |- _ => apply Z.eqb_eq in H
  | H : (_ <? _) = true |- _ => apply Z.ltb_lt in H
  | H : (_ <? _) = false |- _ => apply Z.ltb_ge in H
  end.

(** Every loop yields only addresses below [last] and resumes with the same
    [last]; the guarded ones never yield [BADADDR]. *)
Ltac loop_yield :=
  intros; unfold in_range in *;
  match goal with
  | H : (if ?c then _ else _) = GYield _ _ |- _ =>
      destruct c eqn:?; [injection H as <- <-; bool_facts; repeat split; auto; lia
                         | discriminate]
  end.

Lemma Undefs_loop_yield : forall last ea v s',
  Undefs_loop last ea = GYield v s' -> v < last /\ v <> BADADDR /\ s' = Undefs_resume last v.
Proof. unfold Undefs_loop. loop_yield. Qed.

Lemma BytesThat_loop_yield : forall last cb ea v s',
  BytesThat_loop last cb ea = GYield v s' ->
  v < last /\ v <> BADADDR /\ s' = BytesThat_resume last cb v.
Proof. unfold BytesThat_loop. loop_yield. Qed.

Lemma Heads_loop_yield : forall last ea v s',
  Heads_loop last ea = GYield v s' -> v < last /\ v <> BADADDR /\ s' = Heads_resume last v.
Proof. unfold Heads_loop. loop_yield. Qed.

Lemma NotTails_loop_yield : forall last ea v s',
  NotTails_loop last ea = GYield v s' -> v < last /\ v <> BADADDR /\ s' = NotTails_resume last v.
Proof. unfold NotTails_loop. loop_yield. Qed.

Lemma Funcs_loop_yield : forall last func v s',
  Funcs_loop last func = GYield v s' -> v < last /\ s' = Funcs_resume last v.
Proof.
  intros last [c|] v s' H; [|discriminate]. unfold Funcs_loop in H.
  destruct (startEA c <? last) eqn:E; [|discriminate].
  injection H as <- <-. bool_facts. auto.
Qed.

Lemma FChunks_loop_yield : forall last ch v s',
  FChunks_loop last ch = GYield v s' -> v < last /\ s' = FChunks_resume last v.
Proof.
  intros last [c|] v s' H; [|discriminate]. unfold FChunks_loop in H.
  destruct (startEA c <? last) eqn:E; [|discriminate].
  injection H as <- <-. bool_facts. auto.
Qed.

(** Case analysis on every [match] and [if] of a step that yielded. *)
Ltac split_step H :=
  repeat match type of H with
  | context [match ?x with _ => _ end] => destruct x eqn:?
  | context [if ?c then _ else _] => destruct c eqn:?
  end; try discriminate.

Lemma range_of_intro :
  forall h args pf pl first last,
    unpack2 (getrange h args) = inr (pf, pl) -> bound pf = inr first -> bound pl = inr last ->
    range_of h args = inr (first, last).
Proof. intros h args pf pl first last H1 H2 H3. unfold range_of. rewrite H1, H2, H3. reflexivity. Qed.

(** Invariant of the guarded enumerators: the generator is fresh at the
    first [next()], or it is resumed with the [last] bound of the range
    resolved at that first [next()]. *)
Definition resumes_with {St} (hs : nat -> Host) (args : list pyval) (start : list pyval -> St)
    (resumed : Z -> St -> Prop) (k : nat) (s : St) : Prop :=
  (k = O /\ s = start args) \/
  exists first last, range_of (hs O) args = inr (first, last) /\ resumed last s.

Definition below_last (hs : nat -> Host) (args : list pyval) (v : Z) : Prop :=
  exists first last, range_of (hs O) args = inr (first, last) /\ v < last /\ v <> BADADDR.

Ltac finish_guarded H loop_lemma :=
  apply loop_lemma in H as [Hl [Hb ->]];
  try match goal with
  | Hu : unpack2 _ = inr (_, _), Hf : bound _ = inr _, Hl' : bound _ = inr _ |- _ =>
      pose proof (range_of_intro _ _ _ _ _ _ Hu Hf Hl')
  end;
  match goal with
  | Hr : range_of _ _ = inr (?f, ?l) |- _ =>
      split; [exists f, l; auto | right; exists f, l; eauto]
  end.

Ltac guarded_proof nx start resumed loop_lemma :=
  intros hs args fuel v Hin;
  apply (drive_yields_good nx hs (resumes_with hs args start resumed) _)
    with (fuel := fuel) (k := O) (s := start args); [|left; auto|exact Hin];
  intros k f s w s' [[-> ->]|[first [last [Hr Hs]]]] H;
  [ simpl in H; unfold nx in H; split_step H; finish_guarded H loop_lemma
  | repeat match type of Hs with ex _ => destruct Hs as [? Hs] end; subst s;
    simpl in H; finish_guarded H loop_lemma ].

Lemma Undefs_guarded : forall hs args fuel v,
  In v (yields fuel hs (Undefs args)) -> below_last hs args v.
Proof.
  guarded_proof Undefs_next Undefs_start
    (fun last s => exists x, s = Undefs_resume last x) Undefs_loop_yield.
Qed.

Lemma BytesThat_guarded : forall hs args fuel v,
  In v (yields fuel hs (BytesThat args)) -> below_last hs args v.
Proof.
  guarded_proof BytesThat_next BytesThat_start
    (fun last s => exists cb x, s = BytesThat_resume last cb x) BytesThat_loop_yield.
Qed.

Lemma Heads_guarded : forall hs args fuel v,
  In v (yields fuel hs (Heads args)) -> below_last hs args v.
Proof.
  guarded_proof Heads_next Heads_start
    (fun last s => exists x, s = Heads_resume last x) Heads_loop_yield.
Qed.

Lemma NotTails_guarded : forall hs args fuel v,
  In v (yields fuel hs (NotTails args)) -> below_last hs args v.
Proof.
  guarded_proof NotTails_next NotTails_start
    (fun last s => exists x, s = NotTails_resume last x) NotTails_loop_yield.
Qed.

(** C10: whatever the host's stepping primitives return, and however the
    database changes between two steps, every address yielded by [Undefs],
    [BytesThat], [Heads] and [NotTails] is below the [last] bound resolved at
    the first step and is not [BADADDR]. *)
Theorem guarded_enumerators_below_last :
  forall (en : enumerator) (hs : nat -> Host) (args : list pyval) (fuel : nat) (v : Z),
    In en [EUndefs; EBytesThat; EHeads; ENotTails] ->
    In v (yields fuel hs (generator_of en args)) ->
    exists first last, range_of (hs O) args = inr (first, last) /\ v < last /\ v <> BADADDR.
Proof.
  intros en hs args fuel v Hen Hin.
  simpl in Hen. destruct Hen as [<-|[<-|[<-|[<-|[]]]]]; simpl in Hin.
  - exact (Undefs_guarded hs args fuel v Hin).
  - exact (BytesThat_guarded hs args fuel v Hin).
  - exact (Heads_guarded hs args fuel v Hin).
  - exact (NotTails_guarded hs args fuel v Hin).
Qed.

Lemma guarded_enumerators_below_last_witness :
  exists first last,
    range_of sample_host [PInt 3; PInt 6] = inr (first, last) /\ 4 < last /\ 4 <> BADADDR.
Proof.
  apply (guarded_enumerators_below_last EUndefs (always sample_host) [PInt 3; PInt 6] 10 4).
  - simpl. tauto.
  - vm_compute. tauto.
Defined.

(** ** Empty ranges *)

Definition chunk_1000 : chunk := mkchunk 4096 4112 0.

(** C3 (counterexample): over the empty range [(0x1004, 0x1004)] inside a
    function starting at 0x1000, [Funcs] and [FChunks] yield 0x1000, and
    [ArrayItems(0x1004, 0x1004)] yields the item at 0x1004, since it takes
    no range. *)
Lemma empty_range_nonempty_yields :
  range_of (with_chunks [chunk_1000] sample_host) [PInt 4100; PInt 4100] = inr (4100, 4100) /\
  yields 5 (always (with_chunks [chunk_1000] sample_host)) (Funcs [PInt 4100; PInt 4100])
    = [4096] /\
  yields 5 (always (with_chunks [chunk_1000] sample_host)) (FChunks [PInt 4100; PInt 4100])
    = [4096] /\
  yields 5 (always sample_host) (ArrayItems [PInt 4100; PInt 4100]) = [4100].
Proof. vm_compute. repeat split. Qed.

Ltac no_yield_from Hr :=
  apply no_first_yield; intros f w s' H; simpl in H;
  let Hu := fresh "Hu" in let Hbf := fresh "Hbf" in let Hbl := fresh "Hbl" in
  destruct (range_of_inv _ _ _ _ Hr) as [pf [pl [Hu [Hbf Hbl]]]];
  try (match type of H with ?nx _ _ _ = _ => unfold nx in H end);
  try rewrite Hr in H; try rewrite Hu in H; try rewrite Hbf in H; try rewrite Hbl in H;
  unfold Undefs_loop, Texts_loop, Binaries_loop, BytesThat_loop, Heads_loop,
         NotTails_loop, Addrs_loop, in_range in H;
  split_step H; bool_facts; try lia.

Lemma NonFuncs_loop_empty : forall fuel h a v s',
  NonFuncs_loop fuel h a a <> GYield v s'.
Proof.
  intros [|fuel] h a v s' H; simpl in H; [discriminate|].
  unfold in_range in H. rewrite Z.ltb_irrefl, andb_false_r in H. discriminate.
Qed.

Lemma Funcs_FChunks_below_first :
  forall hs args a fuel v,
    range_of (hs O) args = inr (a, a) ->
    In v (yields fuel hs (Funcs args)) \/ In v (yields fuel hs (FChunks args)) -> v < a.
Proof.
  intros hs args a fuel v Hr [Hin|Hin].
  - apply (drive_yields_good Funcs_next hs
             (fun k s => (k = O /\ s = Funcs_start args) \/ exists x, s = Funcs_resume a x)
             (fun v => v < a)) with (fuel := fuel) (k := O) (s := Funcs_start args);
      [|left; auto|exact Hin].
    intros k f s w s' [[-> ->]|[x ->]] H; simpl in H.
    + rewrite Hr in H.
      destruct (skip_tail_chunks f (hs O) a (first_chunk (hs O) a)); [|discriminate].
      apply Funcs_loop_yield in H as [Hl ->]. split; [exact Hl|right; eauto].
    + apply Funcs_loop_yield in H as [Hl ->]. split; [exact Hl|right; eauto].
  - apply (drive_yields_good FChunks_next hs
             (fun k s => (k = O /\ s = FChunks_start args) \/ exists x, s = FChunks_resume a x)
             (fun v => v < a)) with (fuel := fuel) (k := O) (s := FChunks_start args);
      [|left; auto|exact Hin].
    intros k f s w s' [[-> ->]|[x ->]] H; simpl in H.
    + rewrite Hr in H.
      apply FChunks_loop_yield in H as [Hl ->]. split; [exact Hl|right; eauto].
    + apply FChunks_loop_yield in H as [Hl ->]. split; [exact Hl|right; eauto].
Qed.

(** C3 (amended): over an empty range [(a, a)], [NonFuncs], [Undefs],
    [Addrs], [BytesThat], [Heads] and [NotTails] yield nothing; [Texts] and
    [Binaries] yield nothing when the host's downward searches never return
    an address below their start; [Funcs] and [FChunks] yield only addresses
    below [a] (chunks that begin before the range). *)
Theorem empty_range_enumerators :
  forall (hs : nat -> Host) (args : list pyval) (a : Z) (fuel : nat),
    range_of (hs O) args = inr (a, a) ->
    (forall en, In en [ENonFuncs; EUndefs; EAddrs; EBytesThat; EHeads; ENotTails] ->
       yields fuel hs (generator_of en args) = []) /\
    ((forall ea y x s fl, find_text (hs O) ea y x s fl = BADADDR \/
                          ea <= find_text (hs O) ea y x s fl) ->
       yields fuel hs (Texts args) = []) /\
    ((forall f l s r fl, find_binary (hs O) f l s r fl = BADADDR \/
                         f <= find_binary (hs O) f l s r fl) ->
       yields fuel hs (Binaries args) = []) /\
    (forall v, In v (yields fuel hs (Funcs args)) \/ In v (yields fuel hs (FChunks args)) ->
       v < a).
Proof.
  intros hs args a fuel Hr. split; [|split; [|split]].
  - intros en Hen. simpl in Hen.
    destruct Hen as [<-|[<-|[<-|[<-|[<-|[<-|[]]]]]]]; simpl.
    + apply no_first_yield. intros f w s' H. simpl in H. unfold NonFuncs_next in H.
      rewrite Hr in H. exact (NonFuncs_loop_empty _ _ _ _ _ H).
    + no_yield_from Hr.
    + no_yield_from Hr.
    + no_yield_from Hr.
    + no_yield_from Hr.
    + no_yield_from Hr.
  - intros Hft. no_yield_from Hr.
    all: match goal with
         | H : find_text _ ?e ?y ?x ?s ?f < _ |- _ => destruct (Hft e y x s f); lia
         end.
  - intros Hfb. no_yield_from Hr.
    all: match goal with
         | H : find_binary _ ?e ?l ?s ?r ?f < _ |- _ => destruct (Hfb e l s r f); lia
         end.
  - intros v Hv. exact (Funcs_FChunks_below_first hs args a fuel v Hr Hv).
Qed.

Lemma empty_range_enumerators_witness :
  range_of sample_host [PInt 5; PInt 5] = inr (5, 5) /\
  yields 10 (always sample_host) (Undefs [PInt 5; PInt 5]) = [].
Proof.
  split; [reflexivity|].
  exact (proj1 (empty_range_enumerators (always sample_host) [PInt 5; PInt 5] 5 10 eq_refl)
           EUndefs (or_intror (or_introl eq_refl))).
Defined.

(** ** Undefs on a database with two undefined bytes *)

Lemma range_of_two_ints : forall h x y, range_of h [PInt x; PInt y] = inr (x, y).
Proof. intros h x y. unfold range_of, getrange. destruct (read_selection h) as [[? ?] ?]. reflexivity. Qed.

(** [find_unknown(ea, SEARCH_DOWN)] returns the first undefined address
    after [ea], or [BADADDR] when there is none. *)
Definition find_unknown_next (h : Host) : Prop :=
  forall ea,
    (find_unknown h ea SEARCH_DOWN = BADADDR \/
     (ea < find_unknown h ea SEARCH_DOWN /\
      isUnknown (getFlags h (find_unknown h ea SEARCH_DOWN)) = true)) /\
    (forall x, ea < x < find_unknown h ea SEARCH_DOWN -> isUnknown (getFlags h x) = false).

(** In the range [0x1000, 0x2000) exactly 0x1010 and 0x1020 are undefined. *)
Definition undefined_at_1010_1020 (h : Host) : Prop :=
  forall ea, 4096 <= ea < 8192 -> (isUnknown (getFlags h ea) = true <-> ea = 4112 \/ ea = 4128).

Section UndefsScenario.
Variable h : Host.
Hypothesis Hnext : find_unknown_next h.
Hypothesis Hset : undefined_at_1010_1020 h.

Lemma find_unknown_from_1000 : find_unknown h 4096 SEARCH_DOWN = 4112.
Proof.
  destruct (Hnext 4096) as [Hr Hbetween].
  destruct (Z_lt_ge_dec 4112 (find_unknown h 4096 SEARCH_DOWN)) as [Hgt|Hle].
  - assert (Hu : isUnknown (getFlags h 4112) = true) by (apply Hset; lia).
    rewrite (Hbetween 4112) in Hu by lia. discriminate.
  - destruct Hr as [Hb|[Hlt Hu]]; [unfold BADADDR in Hb; lia|].
    apply Hset in Hu; lia.
Qed.

Lemma find_unknown_from_1010 : find_unknown h 4112 SEARCH_DOWN = 4128.
Proof.
  destruct (Hnext 4112) as [Hr Hbetween].
  destruct (Z_lt_ge_dec 4128 (find_unknown h 4112 SEARCH_DOWN)) as [Hgt|Hle].
  - assert (Hu : isUnknown (getFlags h 4128) = true) by (apply Hset; lia).
    rewrite (Hbetween 4128) in Hu by lia. discriminate.
  - destruct Hr as [Hb|[Hlt Hu]]; [unfold BADADDR in Hb; lia|].
    apply Hset in Hu; lia.
Qed.

Lemma find_unknown_from_1020 : in_range (find_unknown h 4128 SEARCH_DOWN) 8192 = false.
Proof.
  destruct (Hnext 4128) as [Hr _]. unfold in_range.
  destruct Hr as [Hb|[Hlt Hu]].
  - rewrite Hb, Z.eqb_refl. reflexivity.
  - destruct (Z.ltb_spec (find_unknown h 4128 SEARCH_DOWN) 8192) as [Hin|Hout];
      [|apply andb_false_r].
    apply Hset in Hu; lia.
Qed.

Lemma flags_1000_defined : isUnknown (getFlags h 4096) = false.
Proof.
  destruct (isUnknown (getFlags h 4096)) eqn:E; [|reflexivity].
  apply Hset in E; lia.
Qed.

(** Run in IDAPython's main namespace, where [isUnknown] is bound,
    [Undefs(0x1000, 0x2000)] yields 0x1010 and 0x1020 and stops. *)
Lemma Undefs_scenario_bound :
  isUnknown_bound h = true ->
  forall fuel, (3 <= fuel)%nat ->
  run fuel (always h) (Undefs [PInt 4096; PInt 8192]) = ([4112; 4128], EDone).
Proof.
  intros Hb fuel Hf.
  destruct fuel as [|[|[|f]]]; try lia.
  unfold run, always. simpl. rewrite range_of_two_ints. simpl.
  rewrite Hb, flags_1000_defined. simpl.
  unfold Undefs_loop. rewrite find_unknown_from_1000. simpl.
  rewrite find_unknown_from_1010. simpl.
  unfold Undefs_loop. rewrite find_unknown_from_1020. reflexivity.
Qed.
End UndefsScenario.

(** The same database, the module having been imported with [import]. *)
Definition imported (h : Host) : Host :=
  {| read_selection := read_selection h; here := here h; getFlags := getFlags h;
     find_text := find_text h; find_binary := find_binary h;
     find_code := find_code h; find_unknown := find_unknown h;
     next_head := next_head h; next_not_tail := next_not_tail h;
     nextthat := nextthat h; get_fchunk := get_fchunk h;
     get_next_fchunk := get_next_fchunk h; get_next_func := get_next_func h;
     ItemSize := ItemSize h; get_data_elsize := get_data_elsize h;
     isUnknown_bound := false |}.

(** A database whose only undefined bytes are 0x1010 and 0x1020. *)
Definition undef_host : Host :=
  {| read_selection := (false, 0, 0); here := 4096;
     getFlags := fun ea => if (ea =? 4112) || (ea =? 4128) then FF_UNK else FF_DATA;
     find_text := fun _ _ _ _ _ => BADADDR; find_binary := fun _ _ _ _ _ => BADADDR;
     find_code := fun _ _ => BADADDR;
     find_unknown := fun ea _ => if ea <? 4112 then 4112 else if ea <? 4128 then 4128
                                 else BADADDR;
     next_head := fun _ _ => BADADDR; next_not_tail := fun ea => ea + 1;
     nextthat := fun _ _ _ => BADADDR; get_fchunk := fun _ => None;
     get_next_fchunk := fun _ => None; get_next_func := fun _ => None;
     ItemSize := fun _ => 1; get_data_elsize := fun _ _ => 1;
     isUnknown_bound := true |}.

Lemma undef_host_flags : forall x,
  isUnknown (getFlags undef_host x) = (x =? 4112) || (x =? 4128).
Proof.
  intros x. simpl. destruct ((x =? 4112) || (x =? 4128)); reflexivity.
Qed.

Lemma undef_host_next : find_unknown_next undef_host.
Proof.
  intros ea.
  change (find_unknown undef_host ea SEARCH_DOWN)
    with (if ea <? 4112 then 4112 else if ea <? 4128 then 4128 else BADADDR).
  destruct (Z.ltb_spec ea 4112); [|destruct (Z.ltb_spec ea 4128)]; split;
    try (right; split; [lia|rewrite undef_host_flags; reflexivity]);
    try (left; reflexivity);
    intros x Hx; rewrite undef_host_flags;
    apply orb_false_iff; split; apply Z.eqb_neq; unfold BADADDR in Hx; lia.
Qed.

Lemma undef_host_set : undefined_at_1010_1020 undef_host.
Proof.
  intros ea _. rewrite undef_host_flags, orb_true_iff, !Z.eqb_eq. tauto.
Qed.

Lemma Undefs_scenario_example :
  run 5 (always undef_host) (Undefs [PInt 4096; PInt 8192]) = ([4112; 4128], EDone).
Proof.
  apply (Undefs_scenario_bound undef_host undef_host_next undef_host_set); [reflexivity|lia].
Qed.

(** C7: imported as a module ([import enumerators]), [Undefs(0x1000, 0x2000)]
    evaluates the unbound global [isUnknown] on its first [next()], because
    0x1000 < 0x2000, and raises [NameError] before yielding anything,
    whatever the database holds. *)
Theorem Undefs_imported_name_error :
  forall (h : Host) (fuel : nat),
    isUnknown_bound h = false -> (0 < fuel)%nat ->
    run fuel (always h) (Undefs [PInt 4096; PInt 8192]) = ([], ERaise NameError).
Proof.
  intros h fuel Hb Hf. destruct fuel as [|f]; [lia|].
  unfold run, always. simpl. rewrite range_of_two_ints. simpl. rewrite Hb. reflexivity.
Qed.

Lemma Undefs_imported_name_error_witness :
  run 5 (always (imported undef_host)) (Undefs [PInt 4096; PInt 8192]) = ([], ERaise NameError).
Proof. apply Undefs_imported_name_error; [reflexivity|lia]. Defined.

(** ** ArrayItems *)

(** C8: for an item of size 16 whose elements have size 4, [ArrayItems(ea)]
    yields [ea], [ea+4], [ea+8], [ea+12] and stops. *)
Theorem ArrayItems_sixteen_by_four :
  forall (hs : nat -> Host) (ea : Z) (fuel : nat),
    ItemSize (hs O) ea = 16 ->
    get_data_elsize (hs O) ea (getFlags (hs O) ea) = 4 ->
    (5 <= fuel)%nat ->
    run fuel hs (ArrayItems [PInt ea]) = ([ea; ea + 4; ea + 8; ea + 12], EDone).
Proof.
  intros hs ea fuel Hs Hss Hf.
  destruct fuel as [|[|[|[|[|f]]]]]; try lia.
  unfold run. simpl. rewrite Hs, Hss. simpl.
  unfold ArrayItems_loop. simpl.
  repeat f_equal; lia.
Qed.

Lemma ArrayItems_sixteen_by_four_witness :
  run 5 (always {| read_selection := (false, 0, 0); here := 0; getFlags := fun _ => 0;
                   find_text := fun _ _ _ _ _ => BADADDR;
                   find_binary := fun _ _ _ _ _ => BADADDR;
                   find_code := fun _ _ => BADADDR; find_unknown := fun _ _ => BADADDR;
                   next_head := fun _ _ => BADADDR; next_not_tail := fun _ => BADADDR;
                   nextthat := fun _ _ _ => BADADDR; get_fchunk := fun _ => None;
                   get_next_fchunk := fun _ => None; get_next_func := fun _ => None;
                   ItemSize := fun _ => 16; get_data_elsize := fun _ _ => 4;
                   isUnknown_bound := true |})
      (ArrayItems [PInt 8192]) = ([8192; 8196; 8200; 8204], EDone).
Proof.
  apply (ArrayItems_sixteen_by_four _ 8192 5); [reflexivity|reflexivity|lia].
Defined.

(** ** Funcs over a function with a head chunk and a tail chunk *)

Lemma find_skip : forall {A} (p : A -> bool) (pre l : list A),
  (forall c, In c pre -> p c = false) -> find p (pre ++ l) = find p l.
Proof.
  intros A p pre l H. induction pre as [|c pre IH]; [reflexivity|].
  simpl. rewrite (H c (or_introl eq_refl)). apply IH. intros d Hd. apply H. right. exact Hd.
Qed.

Lemma find_none_all : forall {A} (p : A -> bool) (l : list A),
  (forall c, In c l -> p c = false) -> find p l = None.
Proof. intros A p l H. rewrite <- (app_nil_r l). rewrite find_skip by exact H. reflexivity. Qed.

Section ChunkList.
Variables (pre post : list chunk) (first last : Z).
Hypothesis Hpre : Forall (fun c => startEA c < endEA c /\ endEA c <= first) pre.
Hypothesis Hpost : Forall (fun c => last <= startEA c) post.

Lemma pre_skip : forall (p : chunk -> bool) l,
  (forall c, startEA c < endEA c -> endEA c <= first -> p c = false) ->
  find p (pre ++ l) = find p l.
Proof.
  intros p l Hp. apply find_skip. intros c Hc.
  rewrite Forall_forall in Hpre. destruct (Hpre c Hc). apply Hp; assumption.
Qed.

Lemma post_none : forall (p : chunk -> bool),
  (forall c, last <= startEA c -> p c = false) -> find p post = None.
Proof.
  intros p Hp. apply find_none_all. intros c Hc.
  rewrite Forall_forall in Hpost. apply Hp, Hpost, Hc.
Qed.

(** The first chunk at or after [first] is the first of the two. *)
Lemma first_chunk_first_of_two : forall c1 c2 b,
  first <= startEA c1 -> startEA c1 < endEA c1 -> endEA c1 <= startEA c2 ->
  startEA c2 < endEA c2 -> endEA c2 <= last ->
  first_chunk (with_chunks (pre ++ [c1; c2] ++ post) b) first = Some c1.
Proof.
  intros c1 c2 b H1 H2 H3 H4 H5.
  unfold first_chunk. simpl. unfold chunk_at, next_chunk_after.
  rewrite pre_skip by (intros c Hc1 Hc2; apply andb_false_iff; right; apply Z.ltb_ge; lia).
  simpl.
  destruct (Z.leb_spec (startEA c1) first); simpl.
  - replace (first <? endEA c1) with true by (symmetry; apply Z.ltb_lt; lia). reflexivity.
  - replace (startEA c2 <=? first) with false by (symmetry; apply Z.leb_gt; lia). simpl.
    rewrite post_none by (intros c Hc; apply andb_false_iff; left; apply Z.leb_gt; lia).
    rewrite pre_skip by (intros c Hc1 Hc2; apply Z.ltb_ge; lia).
    simpl. replace (first <? startEA c1) with true by (symmetry; apply Z.ltb_lt; lia).
    reflexivity.
Qed.
End ChunkList.

Lemma Funcs_loop_post : forall (p : chunk -> bool) post last,
  Forall (fun c => last <= startEA c) post -> Funcs_loop last (find p post) = GStop.
Proof.
  intros p post last Hpost.
  destruct (find p post) as [c|] eqn:E; [|reflexivity].
  apply find_some in E as [Hin _]. rewrite Forall_forall in Hpost.
  specialize (Hpost c Hin). simpl.
  replace (startEA c <? last) with false by (symmetry; apply Z.ltb_ge; lia). reflexivity.
Qed.

(** After the head chunk, the next function entry is beyond the range. *)
Lemma next_func_after_head : forall pre post first last Hc Tc mid,
  Forall (fun c => startEA c < endEA c /\ endEA c <= first) pre ->
  Forall (fun c => last <= startEA c) post ->
  (mid = [Hc; Tc] \/ mid = [Tc; Hc]) ->
  first <= startEA Hc -> is_tail_chunk Tc = true ->
  Funcs_loop last (next_func_after (pre ++ mid ++ post) (startEA Hc)) = GStop.
Proof.
  intros pre post first last Hc Tc mid Hpre Hpost Hmid H1 Ht.
  unfold next_func_after.
  rewrite (pre_skip pre first Hpre)
    by (intros c Hc1 Hc2; apply andb_false_iff; left; apply Z.ltb_ge; lia).
  destruct Hmid as [->| ->]; simpl; rewrite Z.ltb_irrefl, Ht; simpl;
    try rewrite andb_false_r; apply Funcs_loop_post; exact Hpost.
Qed.

(** C9: over a range holding exactly one function, made of a head chunk and
    a chunk flagged [FUNC_TAIL] (in either order), [Funcs] yields the head
    chunk's start and nothing else.  Chunks outside the range may be
    anything. *)
Theorem Funcs_head_and_tail_chunk :
  forall (base : nat -> Host) (args : list pyval) (pre post mid : list chunk)
         (first last : Z) (Hc Tc : chunk) (fuel : nat),
    Forall (fun c => startEA c < endEA c /\ endEA c <= first) pre ->
    Forall (fun c => last <= startEA c) post ->
    (mid = [Hc; Tc] /\ endEA Hc <= startEA Tc \/ mid = [Tc; Hc] /\ endEA Tc <= startEA Hc) ->
    first <= startEA Hc -> startEA Hc < endEA Hc -> endEA Hc <= last ->
    first <= startEA Tc -> startEA Tc < endEA Tc -> endEA Tc <= last ->
    is_tail_chunk Hc = false -> is_tail_chunk Tc = true ->
    range_of (base O) args = inr (first, last) ->
    (3 <= fuel)%nat ->
    run fuel (fun k => with_chunks (pre ++ mid ++ post) (base k)) (Funcs args)
      = ([startEA Hc], EDone).
Proof.
  intros base args pre post mid first last Hc Tc fuel Hpre Hpost Hmid
         H1 H2 H3 T1 T2 T3 HhT HtT Hr Hf.
  destruct fuel as [|[|[|f]]]; try lia.
  assert (Hr' : range_of (with_chunks (pre ++ mid ++ post) (base O)) args = inr (first, last))
    by exact Hr.
  assert (Hnext : Funcs_loop last (next_func_after (pre ++ mid ++ post) (startEA Hc)) = GStop).
  { apply (next_func_after_head pre post first) with (Tc := Tc); auto.
    destruct Hmid as [[-> _]|[-> _]]; auto. }
  assert (Hskip : skip_tail_chunks (S (S (S f))) (with_chunks (pre ++ mid ++ post) (base O)) last
                    (first_chunk (with_chunks (pre ++ mid ++ post) (base O)) first)
                  = Some (Some Hc)).
  { destruct Hmid as [[-> Ho]|[-> Ho]].
    - rewrite (first_chunk_first_of_two pre post first last Hpre Hpost Hc Tc) by lia.
      simpl. rewrite HhT, andb_false_r. reflexivity.
    - rewrite (first_chunk_first_of_two pre post first last Hpre Hpost Tc Hc) by lia.
      simpl. replace (startEA Tc <? last) with true by (symmetry; apply Z.ltb_lt; lia).
      rewrite HtT. simpl. unfold next_chunk_after.
      rewrite (pre_skip pre first Hpre) by (intros c Hc1 Hc2; apply Z.ltb_ge; lia).
      simpl. rewrite Z.ltb_irrefl.
      replace (startEA Tc <? startEA Hc) with true by (symmetry; apply Z.ltb_lt; lia).
      rewrite HhT, andb_false_r. reflexivity. }
  unfold run. cbn [drive gnext gcur Funcs]. unfold Funcs_next at 1.
  rewrite Hr', Hskip. unfold Funcs_loop at 1.
  replace (startEA Hc <? last) with true by (symmetry; apply Z.ltb_lt; lia).
  cbn [drive]. unfold Funcs_next at 1. cbn [get_next_func with_chunks].
  rewrite Hnext. reflexivity.
Qed.

Lemma Funcs_head_and_tail_chunk_witness :
  run 3 (fun k => with_chunks ([] ++ [mkchunk 4096 4160 0; mkchunk 4352 4400 FUNC_TAIL] ++
                                 [mkchunk 8192 8300 0]) sample_host)
    (Funcs [PInt 4096; PInt 8192]) = ([4096], EDone).
Proof.
  apply (Funcs_head_and_tail_chunk (always sample_host) [PInt 4096; PInt 8192] []
           [mkchunk 8192 8300 0] [mkchunk 4096 4160 0; mkchunk 4352 4400 FUNC_TAIL]
           4096 8192 (mkchunk 4096 4160 0) (mkchunk 4352 4400 FUNC_TAIL) 3).
  - constructor.
  - constructor; [simpl; lia|constructor].
  - left. split; [reflexivity|simpl; lia].
  - simpl; lia.
  - simpl; lia.
  - simpl; lia.
  - simpl; lia.
  - simpl; lia.
  - simpl; lia.
  - reflexivity.
  - reflexivity.
  - reflexivity.
  - lia.
Defined.

(** * Further properties of the module *)

(** ** Argument scanners *)

Lemma getstringpos_from_spec : forall args o,
  (getstringpos_from o args = -1 /\ forall s, ~ In (PStr s) args) \/
  (exists i s, getstringpos_from o args = o + Z.of_nat i /\
     nth_error args i = Some (PStr s) /\
     forall j s', (j < i)%nat -> nth_error args j <> Some (PStr s')).
Proof.
  induction args as [|a rest IH]; intros o; simpl.
  - left. split; [reflexivity|]. intros s [].
  - destruct a as [z|z|s|vs|sa ea|fn|b|];
      try (right; exists O, s; split; [lia|split; [reflexivity|intros j s' Hj; lia]]);
      (destruct (IH (o + 1)) as [[Hm Hn]|[i [s [Hi [Hs Hb]]]]];
       [left; split; [exact Hm|intros s Hin; destruct Hin as [Heq|Hin];
                              [discriminate|exact (Hn s Hin)]]
       |right; exists (S i), s; split; [rewrite Hi; lia|split; [exact Hs|]];
        intros [|j] s' Hj; simpl; [discriminate|apply Hb; lia]]).
Qed.

(** [getstringpos] returns -1 exactly when no argument is a [str], and
    otherwise the index of the first [str] argument. *)
Theorem getstringpos_first_string : forall args,
  (getstringpos args = -1 /\ forall s, ~ In (PStr s) args) \/
  (exists i s, getstringpos args = Z.of_nat i /\ nth_error args i = Some (PStr s) /\
     forall j s', (j < i)%nat -> nth_error args j <> Some (PStr s')).
Proof. intros args. exact (getstringpos_from_spec args 0). Qed.

Lemma getcallablepos_from_spec : forall args o,
  (getcallablepos_from o args = -1 /\ forall f, ~ In (PFunc f) args) \/
  (exists i f, getcallablepos_from o args = o + Z.of_nat i /\
     nth_error args i = Some (PFunc f) /\
     forall j f', (j < i)%nat -> nth_error args j <> Some (PFunc f')).
Proof.
  induction args as [|a rest IH]; intros o; simpl.
  - left. split; [reflexivity|]. intros f [].
  - destruct a as [z|z|s|vs|sa ea|fn|b|];
      try (right; exists O, fn; split; [lia|split; [reflexivity|intros j f' Hj; lia]]);
      (destruct (IH (o + 1)) as [[Hm Hn]|[i [f [Hi [Hs Hb]]]]];
       [left; split; [exact Hm|intros f Hin; destruct Hin as [Heq|Hin];
                              [discriminate|exact (Hn f Hin)]]
       |right; exists (S i), f; split; [rewrite Hi; lia|split; [exact Hs|]];
        intros [|j] f' Hj; simpl; [discriminate|apply Hb; lia]]).
Qed.

(** [getcallablepos] returns -1 exactly when no argument is a Python
    function, and otherwise the index of the first one. *)
Theorem getcallablepos_first_function : forall args,
  (getcallablepos args = -1 /\ forall f, ~ In (PFunc f) args) \/
  (exists i f, getcallablepos args = Z.of_nat i /\ nth_error args i = Some (PFunc f) /\
     forall j f', (j < i)%nat -> nth_error args j <> Some (PFunc f')).
Proof. intros args. exact (getcallablepos_from_spec args 0). Qed.

(** ** Addrs *)

Fixpoint zseq (a : Z) (n : nat) : list Z :=
  match n with O => [] | S n' => a :: zseq (a + 1) n' end.

Lemma Addrs_drive : forall hs last fuel k s ea,
  (forall f, Addrs_next f (hs k) s = Addrs_loop last ea) ->
  (Z.to_nat (last - ea) < fuel)%nat ->
  drive Addrs_next hs k fuel s = (zseq ea (Z.to_nat (last - ea)), EDone).
Proof.
  intros hs last fuel. induction fuel as [|f IH]; intros k s ea Hs Hn; [lia|].
  simpl. rewrite Hs. unfold Addrs_loop.
  destruct (Z.ltb_spec ea last) as [Hlt|Hge].
  - rewrite (IH (S k) (Addrs_resume last ea) (ea + 1)); [|reflexivity|lia].
    replace (Z.to_nat (last - ea)) with (S (Z.to_nat (last - (ea + 1)))) by lia.
    reflexivity.
  - replace (Z.to_nat (last - ea)) with O by lia. reflexivity.
Qed.

(** [Addrs] builds [range(first, last)] at its first [next()].  When that
    list has at most [sys.maxint] items, [Addrs] yields every address of
    [first, last) in ascending order and stops, whatever the database holds
    (nothing when [last <= first]).  A longer range, such as the default
    [(here(), BADADDR)] of a database loaded low in memory, raises
    [OverflowError] before the first address. *)
Theorem Addrs_all_addresses :
  forall (hs : nat -> Host) (args : list pyval) (first last : Z) (fuel : nat),
    range_of (hs O) args = inr (first, last) ->
    (range_len first last <= PY_MAXINT ->
     (Z.to_nat (last - first) < fuel)%nat ->
     run fuel hs (Addrs args) = (zseq first (Z.to_nat (last - first)), EDone)) /\
    (PY_MAXINT < range_len first last -> (0 < fuel)%nat ->
     run fuel hs (Addrs args) = ([], ERaise OverflowError)).
Proof.
  intros hs args first last fuel Hr. split.
  - intros Hlen Hf. unfold run. simpl.
    apply Addrs_drive; [|exact Hf].
    intros f. simpl. rewrite Hr.
    replace (range_len first last >? PY_MAXINT) with false
      by (symmetry; rewrite Z.gtb_ltb; apply Z.ltb_ge; lia).
    reflexivity.
  - intros Hlen Hf. destruct fuel as [|f]; [lia|]. unfold run. simpl. rewrite Hr.
    replace (range_len first last >? PY_MAXINT) with true
      by (symmetry; rewrite Z.gtb_ltb; apply Z.ltb_lt; lia).
    reflexivity.
Qed.

Lemma Addrs_all_addresses_witness :
  run 4 (always sample_host) (Addrs [PInt 10; PInt 13]) = ([10; 11; 12], EDone) /\
  run 4 (always sample_host) (Addrs []) = ([], ERaise OverflowError).
Proof.
  split.
  - apply (proj1 (Addrs_all_addresses (always sample_host) [PInt 10; PInt 13] 10 13 4 eq_refl)); [vm_compute; congruence|lia].
  - apply (proj2 (Addrs_all_addresses (always sample_host) [] 4096 BADADDR 4 eq_refl)); [vm_compute; reflexivity|lia].
Defined.

(** ** ArrayItems in general *)

Lemma ArrayItems_drive : forall hs ea ss n fuel k s i,
  (forall f, ArrayItems_next f (hs k) s = ArrayItems_loop ea ss n i) ->
  (Z.to_nat (n - i) < fuel)%nat ->
  drive ArrayItems_next hs k fuel s
    = (map (fun x => ea + x * ss) (zseq i (Z.to_nat (n - i))), EDone).
Proof.
  intros hs ea ss n fuel. induction fuel as [|f IH]; intros k s i Hs Hn; [lia|].
  simpl. rewrite Hs. unfold ArrayItems_loop.
  destruct (Z.ltb_spec i n) as [Hlt|Hge].
  - rewrite (IH (S k) (ArrayItems_resume ea ss n (i + 1)) (i + 1)); [|reflexivity|lia].
    replace (Z.to_nat (n - i)) with (S (Z.to_nat (n - (i + 1)))) by lia.
    reflexivity.
  - replace (Z.to_nat (n - i)) with O by lia. reflexivity.
Qed.

(** [ArrayItems(ea, ...)] yields [ea + i*ss] for [i] in [range(s/ss)], where
    [s] is the item size and [ss] the element size (floor division), then
    stops; later arguments are ignored.  A count [s/ss] above [sys.maxint]
    makes [range] raise [OverflowError] before the first element. *)
Theorem ArrayItems_elements :
  forall (hs : nat -> Host) (ea : Z) (rest : list pyval) (fuel : nat),
    let s := ItemSize (hs O) ea in
    let ss := get_data_elsize (hs O) ea (getFlags (hs O) ea) in
    ss <> 0 ->
    (s / ss <= PY_MAXINT ->
     (Z.to_nat (s / ss) < fuel)%nat ->
     run fuel hs (ArrayItems (PInt ea :: rest))
       = (map (fun i => ea + i * ss) (zseq 0 (Z.to_nat (s / ss))), EDone)) /\
    (PY_MAXINT < s / ss -> (0 < fuel)%nat ->
     run fuel hs (ArrayItems (PInt ea :: rest)) = ([], ERaise OverflowError)).
Proof.
  intros hs ea rest fuel s ss Hss. split.
  - intros Hmax Hf. unfold run. simpl.
    replace (Z.to_nat (s / ss)) with (Z.to_nat (s / ss - 0)) by (f_equal; lia).
    apply ArrayItems_drive; [|replace (s / ss - 0) with (s / ss) by lia; exact Hf].
    intros f. simpl. fold s ss.
    replace (ss =? 0) with false by (symmetry; apply Z.eqb_neq; exact Hss).
    replace (range_len 0 (s / ss) >? PY_MAXINT) with false
      by (symmetry; rewrite Z.gtb_ltb; apply Z.ltb_ge; unfold range_len; rewrite Z.sub_0_r; apply Z.max_lub; unfold PY_MAXINT in *; lia).
    reflexivity.
  - intros Hmax Hf. destruct fuel as [|f]; [lia|]. unfold run. simpl. fold s ss.
    replace (ss =? 0) with false by (symmetry; apply Z.eqb_neq; exact Hss).
    replace (range_len 0 (s / ss) >? PY_MAXINT) with true
      by (symmetry; rewrite Z.gtb_ltb; apply Z.ltb_lt; unfold range_len; rewrite Z.sub_0_r;
          eapply Z.lt_le_trans; [exact Hmax | apply Z.le_max_r]).
    reflexivity.
Qed.

(** A database where every item has size [s] and element size [ss]. *)
Definition array_host (s ss : Z) : Host :=
  {| read_selection := (false, 0, 0); here := 0; getFlags := fun _ => 0;
     find_text := fun _ _ _ _ _ => BADADDR; find_binary := fun _ _ _ _ _ => BADADDR;
     find_code := fun _ _ => BADADDR; find_unknown := fun _ _ => BADADDR;
     next_head := fun _ _ => BADADDR; next_not_tail := fun _ => BADADDR;
     nextthat := fun _ _ _ => BADADDR; get_fchunk := fun _ => None;
     get_next_fchunk := fun _ => None; get_next_func := fun _ => None;
     ItemSize := fun _ => s; get_data_elsize := fun _ _ => ss;
     isUnknown_bound := true |}.

Lemma ArrayItems_elements_witness :
  run 4 (always (array_host 10 4)) (ArrayItems [PInt 100; PStr "ignored"]) = ([100; 104], EDone) /\
  run 4 (always (array_host 4294967295 1)) (ArrayItems [PInt 1]) = ([], ERaise OverflowError).
Proof.
  split.
  - rewrite (proj1 (ArrayItems_elements (always (array_host 10 4)) 100 [PStr "ignored"] 4
                      ltac:(simpl; lia)));
      [reflexivity|vm_compute; discriminate|vm_compute; lia].
  - apply (proj2 (ArrayItems_elements (always (array_host 4294967295 1)) 1 [] 4
                    ltac:(simpl; lia))); [vm_compute; reflexivity|lia].
Defined.

(** With element size 0, [s/ss] raises [ZeroDivisionError] on the first
    [next()], before any element. *)
Theorem ArrayItems_zero_elsize :
  forall (hs : nat -> Host) (ea : Z) (rest : list pyval) (fuel : nat),
    get_data_elsize (hs O) ea (getFlags (hs O) ea) = 0 -> (0 < fuel)%nat ->
    run fuel hs (ArrayItems (PInt ea :: rest)) = ([], ERaise ZeroDivisionError).
Proof.
  intros hs ea rest fuel H0 Hf. destruct fuel as [|f]; [lia|].
  unfold run. simpl. rewrite H0. reflexivity.
Qed.

Lemma ArrayItems_zero_elsize_witness :
  run 3 (always (array_host 10 0)) (ArrayItems [PInt 100]) = ([], ERaise ZeroDivisionError).
Proof. apply (ArrayItems_zero_elsize (always (array_host 10 0)) 100 [] 3); [reflexivity|lia]. Defined.

(** ** The explicit test of the first byte *)

Lemma yields_first_step : forall (g : Gen) hs fuel v s',
  (forall f, gnext g f (hs O) (gcur g) = GYield v s') -> (0 < fuel)%nat ->
  exists l, yields fuel hs g = v :: l.
Proof.
  intros g hs fuel v s' H Hf. destruct fuel as [|f]; [lia|].
  unfold yields, run. simpl. rewrite H.
  destruct (drive (gnext g) hs 1 f s') as [l e]. exists l. reflexivity.
Qed.

(** The step primitives search from the address after their argument; the
    enumerators therefore test [first] itself, and when [first] already has
    the property it is the first element yielded: an undefined byte for
    [Undefs] (when [isUnknown] is bound), a head for [Heads], a non-tail for
    [NotTails], a byte accepted by the callable for [BytesThat]. *)
Theorem first_address_tested :
  forall (hs : nat -> Host) (args : list pyval) (first last : Z) (fuel : nat),
    range_of (hs O) args = inr (first, last) ->
    first < last -> first <> BADADDR -> (0 < fuel)%nat ->
    (isUnknown_bound (hs O) = true -> isUnknown (getFlags (hs O) first) = true ->
       exists l, yields fuel hs (Undefs args) = first :: l) /\
    (isHead (getFlags (hs O) first) = true ->
       exists l, yields fuel hs (Heads args) = first :: l) /\
    (isTail (getFlags (hs O) first) = false ->
       exists l, yields fuel hs (NotTails args) = first :: l) /\
    (forall cb, nth_error args (Z.to_nat (getcallablepos args)) = Some (PFunc cb) ->
       0 <= getcallablepos args -> cb (getFlags (hs O) first) = true ->
       exists l, yields fuel hs (BytesThat args) = first :: l).
Proof.
  intros hs args first last fuel Hr Hlt Hb Hf.
  assert (Hin : in_range first last = true).
  { unfold in_range. apply andb_true_iff. split.
    - apply negb_true_iff, Z.eqb_neq. exact Hb.
    - apply Z.ltb_lt. exact Hlt. }
  assert (Hlt' : (first <? last) = true) by (apply Z.ltb_lt; exact Hlt).
  split; [|split; [|split]].
  - intros Hbound Hu. eapply yields_first_step; [|exact Hf].
    intros f. simpl. rewrite Hr, Hlt', Hbound, Hu. simpl.
    unfold Undefs_loop. rewrite Hin. reflexivity.
  - intros Hh. eapply yields_first_step; [|exact Hf].
    intros f. simpl. rewrite Hr, Hlt', Hh. simpl.
    unfold Heads_loop. rewrite Hin. reflexivity.
  - intros Ht. eapply yields_first_step; [|exact Hf].
    intros f. simpl. rewrite Hr, Hlt', Ht. simpl.
    unfold NotTails_loop. rewrite Hin. reflexivity.
  - intros cb Hcb Hpos Hc. eapply yields_first_step; [|exact Hf].
    intros f. simpl.
    destruct (range_of_inv _ _ _ _ Hr) as [pf [pl [Hu [Hbf Hbl]]]].
    rewrite Hu.
    replace (getcallablepos args <? 0) with false by (symmetry; apply Z.ltb_ge; exact Hpos).
    rewrite Hcb, Hbf, Hbl, Hlt', Hc. simpl.
    unfold BytesThat_loop. rewrite Hin. reflexivity.
Qed.

Lemma first_address_tested_witness :
  exists l, yields 3 (always sample_host) (Undefs [PInt 7; PInt 9]) = 7 :: l.
Proof.
  refine (proj1 (first_address_tested (always sample_host) [PInt 7; PInt 9] 7 9 3
                   _ _ _ _) _ _).
  - reflexivity.
  - lia.
  - unfold BADADDR. lia.
  - lia.
  - reflexivity.
  - reflexivity.
Defined.

(** ** Ascending output *)

(** If every yield leaves the generator resumed after that value, and a
    resumed generator only yields values above the one it resumed after,
    the output is strictly ascending. *)
Lemma drive_sorted :
  forall {St} (nx : nat -> Host -> St -> gstep St) (hs : nat -> Host) (R : St -> Z -> Prop),
    (forall k f s v s', nx f (hs k) s = GYield v s' -> R s' v) ->
    (forall k f s c v s', R s c -> nx f (hs k) s = GYield v s' -> c < v) ->
    forall fuel k s,
      Sorted Z.lt (fst (drive nx hs k fuel s)) /\
      (forall c, R s c -> Forall (Z.lt c) (fst (drive nx hs k fuel s))).
Proof.
  intros St nx hs R Hres Hinc fuel.
  induction fuel as [|f IH]; intros k s; simpl.
  - split; [constructor|intros; constructor].
  - destruct (nx (S f) (hs k) s) as [v s'| | |] eqn:E; simpl;
      try (split; [constructor|intros; constructor]).
    destruct (IH (S k) s') as [Hs Hall].
    destruct (drive nx hs (S k) f s') as [l e] eqn:Ed. simpl in *.
    pose proof (Hall v (Hres _ _ _ _ _ E)) as Hv.
    split.
    + constructor; [exact Hs|]. destruct l as [|w l]; constructor.
      inversion Hv; assumption.
    + intros c Hc. pose proof (Hinc _ _ _ _ _ _ Hc E) as Hcv.
      constructor; [exact Hcv|].
      apply (Forall_impl _ (fun x Hx => Z.lt_trans c v x Hcv Hx)) in Hv. exact Hv.
Qed.

(** A step primitive that moves forward: it returns an address above its
    argument, or [BADADDR]. *)
Definition forward (ea r : Z) : Prop := ea < r \/ r = BADADDR.

Ltac sorted_loop_step :=
  match goal with
  | H : (if ?c then GYield _ _ else GStop) = GYield _ _ |- _ =>
      destruct c eqn:?; [injection H as <- <-|discriminate]
  end.

Ltac sorted_case nx :=
  apply drive_sorted;
  [ intros k f s v s' H; destruct s; simpl in H; unfold nx in H;
    split_step H;
    unfold Undefs_loop, Heads_loop, NotTails_loop, BytesThat_loop, Binaries_loop,
           FChunks_loop, Funcs_loop in H;
    split_step H; injection H as <- <-; eauto
  | intros k f s c v s' Hc H; destruct Hc as [? [? ->]]; simpl in H;
    unfold Undefs_loop, Heads_loop, NotTails_loop, BytesThat_loop, Binaries_loop,
           FChunks_loop, Funcs_loop, in_range in H;
    split_step H; injection H as <- <-; bool_facts ].

Ltac sorted_by R loop_yield :=
  apply (fun H1 H2 => proj1 (drive_sorted _ _ R H1 H2 _ O _));
  [ intros k f s v s' H; destruct s; simpl in H; split_step H;
    apply loop_yield in H; destruct H as [_ [_ ->]]; eauto
  | intros k f s c v s' Hc H;
    repeat match type of Hc with ex _ => destruct Hc as [? Hc] end; subst s;
    simpl in H;
    match type of H with
    | (if ?b then _ else _) = _ => idtac
    | ?l _ _ = _ => unfold l, in_range in H
    | ?l _ _ _ = _ => unfold l, in_range in H
    | ?l _ _ _ _ = _ => unfold l, in_range in H
    end;
    match type of H with
    | (if ?b then _ else _) = _ =>
        destruct b eqn:?; [injection H as <- _|discriminate]
    end;
    bool_facts ].

Lemma Binaries_loop_yield : forall last str ea v s',
  Binaries_loop last str ea = GYield v s' ->
  v < last /\ v <> BADADDR /\ s' = Binaries_resume last str v.
Proof. unfold Binaries_loop. loop_yield. Qed.

(** With step primitives that move forward, [Undefs], [Heads], [NotTails],
    [BytesThat] and [Binaries] yield strictly ascending addresses, even when
    the database changes between two steps. *)
Theorem ascending_with_forward_steps :
  forall (hs : nat -> Host) (args : list pyval) (fuel : nat),
    ((forall k ea, forward ea (find_unknown (hs k) ea SEARCH_DOWN)) ->
       Sorted Z.lt (yields fuel hs (Undefs args))) /\
    ((forall k ea m, forward ea (next_head (hs k) ea m)) ->
       Sorted Z.lt (yields fuel hs (Heads args))) /\
    ((forall k ea, forward ea (next_not_tail (hs k) ea)) ->
       Sorted Z.lt (yields fuel hs (NotTails args))) /\
    ((forall k ea m cb, forward ea (nextthat (hs k) ea m cb)) ->
       Sorted Z.lt (yields fuel hs (BytesThat args))) /\
    ((forall k ea m str, forward ea (find_binary (hs k) ea m str 16 (Z.lor SEARCH_DOWN SEARCH_NEXT))) ->
       Sorted Z.lt (yields fuel hs (Binaries args))).
Proof.
  intros hs args fuel. unfold yields, run. simpl.
  split; [|split; [|split; [|split]]]; intros Hfw.
  - sorted_by (fun s c => exists last, s = Undefs_resume last c) Undefs_loop_yield.
    destruct (Hfw k c) as [Hl|Hb']; [exact Hl|contradiction].
  - sorted_by (fun s c => exists last, s = Heads_resume last c) Heads_loop_yield.
    match goal with
    | |- c < next_head _ c ?m => destruct (Hfw k c m) as [Hl|Hb']; [exact Hl|contradiction]
    end.
  - sorted_by (fun s c => exists last, s = NotTails_resume last c) NotTails_loop_yield.
    destruct (Hfw k c) as [Hl|Hb']; [exact Hl|contradiction].
  - sorted_by (fun s c => exists last cb, s = BytesThat_resume last cb c) BytesThat_loop_yield.
    match goal with
    | |- c < nextthat _ c ?m ?cb => destruct (Hfw k c m cb) as [Hl|Hb']; [exact Hl|contradiction]
    end.
  - sorted_by (fun s c => exists last str, s = Binaries_resume last str c) Binaries_loop_yield.
    match goal with
    | |- c < find_binary _ c ?m ?str _ _ =>
        destruct (Hfw k c m str) as [Hl|Hb']; [exact Hl|contradiction]
    end.
Qed.

Lemma ascending_with_forward_steps_witness :
  Sorted Z.lt (yields 5 (always sample_host) (Undefs [PInt 3; PInt 6])).
Proof.
  apply (proj1 (ascending_with_forward_steps (always sample_host) [PInt 3; PInt 6] 5)).
  intros k ea. left. simpl. lia.
Defined.

Ltac chunk_sorted_step loop_yield :=
  intros k f s v s' H; destruct s; simpl in H; split_step H;
  apply loop_yield in H; destruct H as [_ ->]; eauto.

Ltac chunk_sorted_resume Hfw :=
  intros k f s c v s' [last ->] H; simpl in H;
  match type of H with
  | ?l ?last (?g ?h c) = _ =>
      unfold l in H; destruct (g h c) as [ch|] eqn:E; [|discriminate];
      destruct (startEA ch <? last); [injection H as <- _|discriminate];
      exact (Hfw _ _ _ E)
  end.

(** When [get_next_fchunk] (resp. [get_next_func]) returns chunks starting
    after its argument, [FChunks] (resp. [Funcs]) yields strictly ascending
    addresses. *)
Theorem chunks_ascending :
  forall (hs : nat -> Host) (args : list pyval) (fuel : nat),
    ((forall k ea c, get_next_fchunk (hs k) ea = Some c -> ea < startEA c) ->
       Sorted Z.lt (yields fuel hs (FChunks args))) /\
    ((forall k ea c, get_next_func (hs k) ea = Some c -> ea < startEA c) ->
       Sorted Z.lt (yields fuel hs (Funcs args))).
Proof.
  intros hs args fuel. unfold yields, run. simpl. split; intros Hfw.
  - apply (fun H1 H2 => proj1 (drive_sorted _ _
             (fun s c => exists last, s = FChunks_resume last c) H1 H2 _ O _)).
    + chunk_sorted_step FChunks_loop_yield.
    + chunk_sorted_resume Hfw.
  - apply (fun H1 H2 => proj1 (drive_sorted _ _
             (fun s c => exists last, s = Funcs_resume last c) H1 H2 _ O _)).
    + chunk_sorted_step Funcs_loop_yield.
    + chunk_sorted_resume Hfw.
Qed.

Lemma chunks_ascending_witness :
  Sorted Z.lt (yields 5 (always (with_chunks [mkchunk 10 20 0; mkchunk 30 40 FUNC_TAIL;
                                              mkchunk 50 60 0] sample_host))
                 (FChunks [PInt 0; PInt 100])).
Proof.
  apply (proj1 (chunks_ascending _ [PInt 0; PInt 100] 5)).
  intros k ea c H. unfold always in H. cbn [get_next_fchunk with_chunks] in H.
  unfold next_chunk_after in H.
  apply find_some in H as [_ H]. apply Z.ltb_lt. exact H.
Defined.

Lemma drive_yield_cons :
  forall {St} (nx : nat -> Host -> St -> gstep St) (hs : nat -> Host) k f s v s',
    nx (S f) (hs k) s = GYield v s' ->
    fst (drive nx hs k (S f) s) = v :: fst (drive nx hs (S k) f s').
Proof.
  intros St nx hs k f s v s' H. simpl. rewrite H.
  destruct (drive nx hs (S k) f s'). reflexivity.
Qed.

(** ** NonFuncs *)

(** When [first] is neither in a function chunk nor code and no chunk follows
    it, [NonFuncs] stops at once (the [return] at line 173), whatever code
    lies further in the range. *)
Theorem NonFuncs_stops_without_next_chunk :
  forall (hs : nat -> Host) (args : list pyval) (first last : Z) (fuel : nat),
    let h := hs O in
    range_of h args = inr (first, last) -> first <> BADADDR -> first < last ->
    get_fchunk h first = None -> isCode (getFlags h first) = false ->
    get_next_fchunk h first = None -> (0 < fuel)%nat ->
    run fuel hs (NonFuncs args) = ([], EDone).
Proof.
  intros hs args first last fuel h Hr Hb Hlt Hc Hcode Hn Hf.
  destruct fuel as [|f]; [lia|]. unfold run. simpl. fold h. rewrite Hr. simpl.
  unfold in_range. rewrite (proj2 (Z.eqb_neq _ _) Hb), (proj2 (Z.ltb_lt _ _) Hlt). simpl.
  rewrite Hc, Hcode, Hn. reflexivity.
Qed.

(** A database with code at 0x2000 only and one function chunk at 0x3000. *)
Definition nonfuncs_host : Host :=
  {| read_selection := (false, 0, 0); here := 0;
     getFlags := fun ea => if ea =? 8192 then FF_CODE else FF_DATA;
     find_text := fun _ _ _ _ _ => BADADDR; find_binary := fun _ _ _ _ _ => BADADDR;
     find_code := fun ea _ => if ea <? 8192 then 8192 else BADADDR;
     find_unknown := fun _ _ => BADADDR;
     next_head := fun ea _ => ea + 4; next_not_tail := fun ea => ea + 1;
     nextthat := fun _ _ _ => BADADDR;
     get_fchunk := chunk_at [mkchunk 12288 12352 0];
     get_next_fchunk := next_chunk_after [mkchunk 12288 12352 0];
     get_next_func := next_func_after [mkchunk 12288 12352 0];
     ItemSize := fun _ => 1; get_data_elsize := fun _ _ => 1;
     isUnknown_bound := true |}.

Lemma NonFuncs_stops_without_next_chunk_witness :
  run 3 (always nonfuncs_host) (NonFuncs [PInt 16384; PInt 20480]) = ([], EDone).
Proof.
  apply (NonFuncs_stops_without_next_chunk _ _ 16384 20480 3);
    try reflexivity; unfold BADADDR; lia.
Defined.

(** One pass of the [while] loop of [NonFuncs] (lines 163-178) at the
    current address [ea], whichever [next()] and whichever iteration it is:
    when [ea] is in the range, neither in a chunk nor code, and the next
    code address [nextcode] lies before the next chunk, the pass yields
    [nextcode] without comparing it with [last] and suspends with
    [ea = nextcode] (line 176).  At the following [next()], on the database
    as it is then, the loop resumes at [nextcode]; if that address is in the
    range, outside every chunk and code, the isCode branch yields it a
    second time. *)
Theorem NonFuncs_nextcode_twice :
  forall (h h' : Host) (last ea nextcode : Z) (nc : chunk) (f f' : nat),
    in_range ea last = true ->
    get_fchunk h ea = None -> isCode (getFlags h ea) = false ->
    get_next_fchunk h ea = Some nc ->
    find_code h ea (Z.lor SEARCH_NEXT SEARCH_DOWN) = nextcode ->
    nextcode < startEA nc ->
    NonFuncs_loop (S f) h last ea = GYield nextcode (NonFuncs_after_next last nextcode) /\
    (in_range nextcode last = true ->
     get_fchunk h' nextcode = None -> isCode (getFlags h' nextcode) = true ->
     NonFuncs_next (S f') h' (NonFuncs_after_next last nextcode)
       = GYield nextcode (NonFuncs_after_code last nextcode)).
Proof.
  intros h h' last ea nextcode nc f f' Hin Hc Hcode Hn Hfc Hbefore. split.
  - cbn [NonFuncs_loop]. rewrite Hin, Hc, Hcode, Hn, Hfc.
    rewrite (proj2 (Z.ltb_lt _ _) Hbefore). reflexivity.
  - intros Hin2 Hc2 Hcode2. cbn [NonFuncs_next NonFuncs_loop].
    rewrite Hin2, Hc2, Hcode2. reflexivity.
Qed.

(** In [nonfuncs_host], the loop at 0x1000 yields 0x2000 even when [last] is
    0x2000; with [last = 0x4000] the next step yields 0x2000 again, and
    [NonFuncs(0x1000, 0x4000)] starts with [0x2000, 0x2000]. *)
Lemma NonFuncs_nextcode_twice_witness :
  NonFuncs_loop 1 nonfuncs_host 8192 4096
    = GYield 8192 (NonFuncs_after_next 8192 8192) /\
  NonFuncs_next 1 nonfuncs_host (NonFuncs_after_next 16384 8192)
    = GYield 8192 (NonFuncs_after_code 16384 8192).
Proof.
  split.
  - exact (proj1 (NonFuncs_nextcode_twice nonfuncs_host nonfuncs_host 8192 4096 8192
                    (mkchunk 12288 12352 0) O O eq_refl eq_refl eq_refl eq_refl eq_refl
                    ltac:(simpl; lia))).
  - exact (proj2 (NonFuncs_nextcode_twice nonfuncs_host nonfuncs_host 16384 4096 8192
                    (mkchunk 12288 12352 0) O O eq_refl eq_refl eq_refl eq_refl eq_refl
                    ltac:(simpl; lia)) eq_refl eq_refl eq_refl).
Defined.

Example NonFuncs_nextcode_twice_run :
  exists l, yields 4 (always nonfuncs_host) (NonFuncs [PInt 4096; PInt 16384])
              = 8192 :: 8192 :: l.
Proof. eexists. reflexivity. Qed.

(** ** Texts *)

Lemma Texts_flags_arg :
  forall args i s,
    getstringpos args = Z.of_nat i -> nth_error args i = Some (PStr s) ->
    nth_error args (Z.to_nat (getstringpos args)) = Some (PStr s) /\
    (if getstringpos args + 1 <? Z.of_nat (List.length args)
     then nth (Z.to_nat (getstringpos args + 1)) args (PInt 0) else PInt 0)
    = match nth_error args (S i) with Some v => v | None => PInt 0 end.
Proof.
  intros args i s Hi Hs. rewrite Hi, Nat2Z.id. split; [exact Hs|].
  destruct (nth_error args (S i)) as [v|] eqn:E.
  - assert (Hl : (S i < List.length args)%nat) by (apply nth_error_Some; congruence).
    rewrite (proj2 (Z.ltb_lt _ _)) by lia.
    replace (Z.to_nat (Z.of_nat i + 1)) with (S i) by lia.
    apply nth_error_nth. exact E.
  - apply nth_error_None in E.
    assert (Hl : (i < List.length args)%nat) by (apply nth_error_Some; congruence).
    rewrite (proj2 (Z.ltb_ge _ _)) by lia. reflexivity.
Qed.

(** [Texts] reads its search flags from the argument that follows the search
    string, and 0 when the search string is the last argument (line 133).
    The first search starts at [first] with [SEARCH_DOWN|flags], and its
    result is the first value yielded when it is in the range; an [int],
    [long] or [bool] flags argument is accepted ([True] counting as 1).  Any
    other flags argument raises [TypeError] at the first [next()], before
    [find_text] is called (the [|] at line 135). *)
Theorem Texts_search_flags :
  forall (hs : nat -> Host) (args : list pyval) (i : nat) (s : string),
    getstringpos args = Z.of_nat i -> nth_error args i = Some (PStr s) ->
    (forall pf pl v fuel,
       unpack2 (getrange (hs O) args) = inr (pf, pl) ->
       nth_error args (S i) = Some v -> as_int v = None -> (0 < fuel)%nat ->
       run fuel hs (Texts args) = ([], ERaise TypeError)) /\
    (forall first last fl fuel,
       range_of (hs O) args = inr (first, last) ->
       match nth_error args (S i) with Some v => as_int v | None => Some 0 end = Some fl ->
       in_range (find_text (hs O) first 0 0 s (Z.lor SEARCH_DOWN fl)) last = true ->
       (0 < fuel)%nat ->
       exists l, yields fuel hs (Texts args)
                 = find_text (hs O) first 0 0 s (Z.lor SEARCH_DOWN fl) :: l).
Proof.
  intros hs args i s Hi Hs.
  destruct (Texts_flags_arg args i s Hi Hs) as [Hnth Hfl].
  assert (Hneg : (getstringpos args <? 0) = false) by (apply Z.ltb_ge; lia).
  split.
  - intros pf pl v fuel Hu Hv Hint Hf. destruct fuel as [|f]; [lia|].
    unfold run, Texts. cbn [drive gnext gcur Texts_next].
    rewrite Hu. cbv zeta. rewrite Hneg, Hnth, Hfl, Hv, Hint. reflexivity.
  - intros first last fl fuel Hr Hflv Hin Hf. destruct fuel as [|f]; [lia|].
    destruct (range_of_inv _ _ _ _ Hr) as (pf & pl & Hu & Hpf & Hpl).
    unfold yields, run, Texts. cbn [gnext gcur].
    rewrite (drive_yield_cons _ _ _ _ _ (find_text (hs O) first 0 0 s (Z.lor SEARCH_DOWN fl))
               (Texts_resume last s fl (find_text (hs O) first 0 0 s (Z.lor SEARCH_DOWN fl)))).
    + eexists. reflexivity.
    + cbn [Texts_next]. rewrite Hu. cbv zeta. rewrite Hneg, Hnth, Hfl.
      assert (Hv : as_int (match nth_error args (S i) with Some v => v | None => PInt 0 end)
                   = Some fl) by (destruct (nth_error args (S i)); exact Hflv).
      rewrite Hv, Hpf, Hpl. unfold Texts_loop. rewrite Hin. reflexivity.
Qed.

(** Text found at 0x1010 and 0x1020 of a range [0x1000, 0x2000). *)
Definition texts_host (fl : Z) : Host :=
  {| read_selection := (false, 0, 0); here := 4096;
     getFlags := fun _ => 0;
     find_text := fun ea _ _ _ f => if f =? Z.lor SEARCH_DOWN fl then
                                      (if ea <? 4112 then 4112 else if ea <? 4128 then 4128
                                       else BADADDR) else BADADDR;
     find_binary := fun _ _ _ _ _ => BADADDR;
     find_code := fun _ _ => BADADDR; find_unknown := fun _ _ => BADADDR;
     next_head := fun ea _ => ea + 1; next_not_tail := fun ea => ea + 1;
     nextthat := fun _ _ _ => BADADDR;
     get_fchunk := fun _ => None; get_next_fchunk := fun _ => None;
     get_next_func := fun _ => None;
     ItemSize := fun _ => 1; get_data_elsize := fun _ _ => 1;
     isUnknown_bound := true |}.

Lemma Texts_search_flags_witness :
  run 2 (always (texts_host 0)) (Texts [PInt 4096; PInt 8192; PStr "LDR"; PStr "x"])
    = ([], ERaise TypeError) /\
  (exists l, yields 3 (always (texts_host 0)) (Texts [PInt 4096; PInt 8192; PStr "LDR"])
              = 4112 :: l) /\
  exists l, yields 3 (always (texts_host 1))
              (Texts [PInt 4096; PInt 8192; PStr "LDR"; PBool true]) = 4112 :: l.
Proof.
  split.
  - apply (proj1 (Texts_search_flags (always (texts_host 0))
                    [PInt 4096; PInt 8192; PStr "LDR"; PStr "x"] 2%nat "LDR" eq_refl eq_refl)
             (PInt 4096) (PInt 8192) (PStr "x") 2%nat); reflexivity || lia.
  - split.
    + apply (proj2 (Texts_search_flags (always (texts_host 0))
                      [PInt 4096; PInt 8192; PStr "LDR"] 2%nat "LDR" eq_refl eq_refl)
               4096 8192 0 3%nat); reflexivity || lia.
    + apply (proj2 (Texts_search_flags (always (texts_host 1))
                      [PInt 4096; PInt 8192; PStr "LDR"; PBool true] 2%nat "LDR" eq_refl eq_refl)
               4096 8192 1 3%nat); reflexivity || lia.
Defined.

(** ** Upper bound of the remaining enumerators *)

Definition yields_below_last (hs : nat -> Host) (args : list pyval) (v : Z) : Prop :=
  exists first last, range_of (hs O) args = inr (first, last) /\ v < last.

Lemma Texts_loop_yield : forall last str fl ea v s',
  Texts_loop last str fl ea = GYield v s' ->
  v < last /\ v <> BADADDR /\ s' = Texts_resume last str fl v.
Proof. unfold Texts_loop. loop_yield. Qed.

Lemma Addrs_loop_yield : forall last ea v s',
  Addrs_loop last ea = GYield v s' -> v < last /\ s' = Addrs_resume last v.
Proof.
  intros last ea v s' H. unfold Addrs_loop in H.
  destruct (ea <? last) eqn:E; [|discriminate].
  injection H as <- <-. split; [apply Z.ltb_lt; exact E | reflexivity].
Qed.

Ltac finish_below H loop_lemma :=
  apply loop_lemma in H; decompose [and] H; clear H; subst;
  try match goal with
  | Hu : unpack2 _ = inr (_, _), Hf : bound _ = inr _, Hl' : bound _ = inr _ |- _ =>
      pose proof (range_of_intro _ _ _ _ _ _ Hu Hf Hl')
  end;
  match goal with
  | Hr : range_of _ _ = inr (?f, ?l) |- _ =>
      split; [exists f, l; auto | right; exists f, l; split; [exact Hr | eauto]]
  end.

Ltac below_proof nx start resumed loop_lemma :=
  intros hs args fuel v Hin;
  apply (drive_yields_good nx hs (resumes_with hs args start resumed) (yields_below_last hs args))
    with (fuel := fuel) (k := O) (s := start args); [|left; auto|exact Hin];
  intros k f s w s' [[-> ->]|[first [last [Hr Hs]]]] H;
  [ simpl in H; try unfold nx in H; split_step H; finish_below H loop_lemma
  | repeat match type of Hs with ex _ => destruct Hs as [? Hs] end; subst s;
    simpl in H; finish_below H loop_lemma ].

Lemma Texts_below : forall hs args fuel v,
  In v (yields fuel hs (Texts args)) -> yields_below_last hs args v.
Proof.
  below_proof Texts_next Texts_start
    (fun last s => exists str fl x, s = Texts_resume last str fl x) Texts_loop_yield.
Qed.

Lemma Binaries_below : forall hs args fuel v,
  In v (yields fuel hs (Binaries args)) -> yields_below_last hs args v.
Proof.
  below_proof Binaries_next Binaries_start
    (fun last s => exists str x, s = Binaries_resume last str x) Binaries_loop_yield.
Qed.

Lemma Addrs_below : forall hs args fuel v,
  In v (yields fuel hs (Addrs args)) -> yields_below_last hs args v.
Proof.
  below_proof Addrs_next Addrs_start
    (fun last s => exists x, s = Addrs_resume last x) Addrs_loop_yield.
Qed.

Lemma Funcs_below : forall hs args fuel v,
  In v (yields fuel hs (Funcs args)) -> yields_below_last hs args v.
Proof.
  below_proof Funcs_next Funcs_start
    (fun last s => exists x, s = Funcs_resume last x) Funcs_loop_yield.
Qed.

Lemma FChunks_below : forall hs args fuel v,
  In v (yields fuel hs (FChunks args)) -> yields_below_last hs args v.
Proof.
  below_proof FChunks_next FChunks_start
    (fun last s => exists x, s = FChunks_resume last x) FChunks_loop_yield.
Qed.

(** [Texts], [Binaries], [Addrs], [Funcs] and [FChunks] yield only
    addresses below the [last] bound resolved at the first step, whatever
    the host returns and however the database changes between two steps:
    their loops test [ea<last] (lines 136, 242), iterate over
    [range(first, last)] (line 287) or test [startEA<last] (lines 370, 390)
    before each [yield]. *)
Theorem bounded_enumerators_below_last :
  forall (en : enumerator) (hs : nat -> Host) (args : list pyval) (fuel : nat) (v : Z),
    In en [ETexts; EBinaries; EAddrs; EFuncs; EFChunks] ->
    In v (yields fuel hs (generator_of en args)) ->
    exists first last, range_of (hs O) args = inr (first, last) /\ v < last.
Proof.
  intros en hs args fuel v Hen Hin.
  simpl in Hen. destruct Hen as [<-|[<-|[<-|[<-|[<-|[]]]]]]; simpl in Hin.
  - exact (Texts_below hs args fuel v Hin).
  - exact (Binaries_below hs args fuel v Hin).
  - exact (Addrs_below hs args fuel v Hin).
  - exact (Funcs_below hs args fuel v Hin).
  - exact (FChunks_below hs args fuel v Hin).
Qed.

Lemma bounded_enumerators_below_last_witness :
  exists first last, range_of (sample_host) [PInt 1; PInt 3] = inr (first, last) /\ 2 < last.
Proof.
  apply (bounded_enumerators_below_last EAddrs (always sample_host) [PInt 1; PInt 3] 5 2).
  - simpl. tauto.
  - vm_compute. tauto.
Defined.
